(** * ai-coding-worker: the SSE relay, the workflow endpoint, the commit-message
    helper and the Claude Code provider options.

    Shallow embedding of
    - [workflow-api/src/server.ts]  ([streamSSE], [GET /status], [POST /api/workflow]),
    - [src/utils/llmHelper.ts]      ([LLMHelper.generateCommitMessage]),
    - [ClaudeCodeProvider]          ([createQueryOptions], [execute]).

    JavaScript strings are sequences of UTF-16 code units, network chunks are
    byte buffers.  [JSON.parse] and the network belong to the host: the
    development is parametric in them (class [Host]).  Timestamps
    ([new Date().toISOString()]) are left out of the event records. *)

From Stdlib Require Import List NArith ZArith String Ascii Bool Lia Floats.
From Stdlib Require Strings.Byte.
Import ListNotations.

Local Open Scope N_scope.

(* ------------------------------------------------------------------------- *)
(** ** JavaScript strings, buffers and the String methods the code calls      *)
(* ------------------------------------------------------------------------- *)

Module JS.

(** A JS string: its UTF-16 code units. *)
Definition jsstring := list N.

(** A Node [Buffer]. *)
Definition Buffer := list Byte.byte.

(** A string literal of the source (ASCII). *)
Definition lit (s : string) : jsstring :=
  map N_of_ascii (list_ascii_of_string s).

(** The bytes of an ASCII literal. *)
Definition bytes (s : string) : Buffer :=
  map byte_of_ascii (list_ascii_of_string s).

Fixpoint jsstring_eqb (s t : jsstring) : bool :=
  match s, t with
  | [], [] => true
  | c :: s', d :: t' => (c =? d) && jsstring_eqb s' t'
  | _, _ => false
  end.

(** [s.startsWith(p)] *)
Fixpoint startsWith (s p : jsstring) : bool :=
  match p with
  | [] => true
  | c :: p' =>
      match s with
      | [] => false
      | d :: s' => (d =? c) && startsWith s' p'
      end
  end.

(** [s.substring(a)] for [0 <= a] *)
Definition substring_from (a : nat) (s : jsstring) : jsstring := skipn a s.

(** [s.substring(a, b)] for [0 <= a <= b] *)
Definition substring (a b : nat) (s : jsstring) : jsstring :=
  firstn (b - a) (skipn a s).

(** The line feed, ['\n']. *)
Definition LF : N := 10.

(** Puts [c] in front of the first piece. *)
Definition cons_first (c : N) (pieces : list jsstring) : list jsstring :=
  match pieces with
  | [] => [[c]]
  | p :: ps => (c :: p) :: ps
  end.

(** [s.split(sep)] for a separator of two code units [a b]: the occurrences
    are taken from the left and do not overlap; the result always has at
    least one piece. *)
Fixpoint split2 (a b : N) (s : jsstring) : list jsstring :=
  match s with
  | [] => [[]]
  | c :: s' =>
      match s' with
      | d :: s'' =>
          if (c =? a) && (d =? b) then [] :: split2 a b s''
          else cons_first c (split2 a b s')
      | [] => [[c]]
      end
  end.

(** [s.split('\n\n')] *)
Definition split_nn (s : jsstring) : list jsstring := split2 LF LF s.

(** [pieces.join('\n\n')] *)
Fixpoint join_nn (pieces : list jsstring) : jsstring :=
  match pieces with
  | [] => []
  | [p] => p
  | p :: ps => p ++ LF :: LF :: join_nn ps
  end.

(** [a.pop()]: the last element ([undefined] on the empty array) and the
    array that is left. *)
Fixpoint pop {A} (a : list A) : option A * list A :=
  match a with
  | [] => (None, [])
  | [x] => (Some x, [])
  | x :: a' => let (r, rest) := pop a' in (r, x :: rest)
  end.

(** [x || ''] for [x] a string or [undefined]: both falsy values, [undefined]
    and the empty string, give ['']. *)
Definition or_empty (x : option jsstring) : jsstring :=
  match x with
  | Some (c :: s) => c :: s
  | _ => []
  end.

(** White space and line terminators, as [String.prototype.trim] strips. *)
Definition is_space (c : N) : bool :=
  ((9 <=? c) && (c <=? 13)) || (c =? 32) || (c =? 0xA0) || (c =? 0x1680)
  || ((0x2000 <=? c) && (c <=? 0x200A)) || (c =? 0x2028) || (c =? 0x2029)
  || (c =? 0x202F) || (c =? 0x205F) || (c =? 0x3000) || (c =? 0xFEFF).

Fixpoint trimStart (s : jsstring) : jsstring :=
  match s with
  | c :: s' => if is_space c then trimStart s' else s
  | [] => []
  end.

(** [s.trim()] *)
Definition trim (s : jsstring) : jsstring :=
  rev (trimStart (rev (trimStart s))).

(** *** [Buffer.prototype.toString()]: UTF-8 decoding with U+FFFD *)

(** A sequence in progress: continuation bytes still needed, the code point
    so far and the range allowed for the next byte. *)
Record Pending := { needed : nat; cp : N; lower : N; upper : N }.

Definition REPLACEMENT : N := 0xFFFD.

(** A byte met with no sequence in progress. *)
Definition utf8_lead (b : N) : list N * option Pending :=
  if b <=? 0x7F then ([b], None)
  else if (0xC2 <=? b) && (b <=? 0xDF) then
    ([], Some {| needed := 1; cp := N.land b 0x1F; lower := 0x80; upper := 0xBF |})
  else if (0xE0 <=? b) && (b <=? 0xEF) then
    ([], Some {| needed := 2; cp := N.land b 0xF;
                 lower := if b =? 0xE0 then 0xA0 else 0x80;
                 upper := if b =? 0xED then 0x9F else 0xBF |})
  else if (0xF0 <=? b) && (b <=? 0xF4) then
    ([], Some {| needed := 3; cp := N.land b 0x7;
                 lower := if b =? 0xF0 then 0x90 else 0x80;
                 upper := if b =? 0xF4 then 0x8F else 0xBF |})
  else ([REPLACEMENT], None).

(** One byte: the code points it completes and the sequence left open.  A byte
    that cannot continue the open sequence closes it with U+FFFD and is read
    again as a lead byte. *)
Definition utf8_step (st : option Pending) (b : N) : list N * option Pending :=
  match st with
  | None => utf8_lead b
  | Some p =>
      if (lower p <=? b) && (b <=? upper p) then
        let cp' := N.lor (N.shiftl (cp p) 6) (N.land b 0x3F) in
        match needed p with
        | S (S n) => ([], Some {| needed := S n; cp := cp'; lower := 0x80; upper := 0xBF |})
        | _ => ([cp'], None)
        end
      else
        let (out, st') := utf8_lead b in (REPLACEMENT :: out, st')
  end.

(** The code points of a whole buffer; a sequence cut short by the end of the
    buffer gives U+FFFD. *)
Fixpoint utf8_decode (st : option Pending) (bs : list N) : list N :=
  match bs with
  | [] => match st with None => [] | Some _ => [REPLACEMENT] end
  | b :: bs' => let (out, st') := utf8_step st b in out ++ utf8_decode st' bs'
  end.

(** The UTF-16 code units of a code point. *)
Definition utf16 (c : N) : list N :=
  if c <? 0x10000 then [c]
  else let c' := c - 0x10000 in [0xD800 + c' / 0x400; 0xDC00 + c' mod 0x400].

(** [chunk.toString()] (the encoding defaults to ['utf8']): each buffer is
    decoded on its own. *)
Definition toString (chunk : Buffer) : jsstring :=
  flat_map utf16 (utf8_decode None (map Byte.to_N chunk)).

End JS.

(* ------------------------------------------------------------------------- *)
(** ** Values, exceptions and the host                                        *)
(* ------------------------------------------------------------------------- *)

Import JS.

(** The values [JSON.parse] produces.  [undefined] is not one of them: a
    variable or property that may be [undefined] has type [option JSON]. *)
#[warnings="-register-all"] Inductive JSON :=
| JNull
| JBool (b : bool)
| JNumber (x : float)
| JString (s : jsstring)
| JArray (items : list JSON)
| JObject (fields : list (jsstring * JSON)).

(** What a [throw] or a rejected promise carries: an [Error] with its message,
    or some other value. *)
Inductive Thrown :=
| ErrorObject (message : jsstring)
| NotAnError.

(** How a downstream response goes: the chunks of its ['data'] events, then
    ['end'] or an ['error'] (of the response or of the request; a request that
    fails before any response has no chunk). *)
Inductive Ending :=
| StreamEnd
| StreamError (e : Thrown).

Record Downstream := { chunks : list Buffer; ending : Ending }.

(** What the code takes from its host: [JSON.parse] ([None] when it throws a
    SyntaxError) and the network ([http.request] to [url] with the body
    [JSON.stringify(data)], as the downstream service answers it). *)
Class Host := {
  JSON_parse : jsstring -> option JSON;
  http_post : jsstring -> JSON -> Downstream;
  (** ToString of a number, an array or an object *)
  ToString_other : JSON -> jsstring
}.

(** ToString, as a template literal applies it to [${v}]. *)
Definition ToString `{Host} (v : option JSON) : jsstring :=
  match v with
  | None => lit "undefined"
  | Some JNull => lit "null"
  | Some (JBool true) => lit "true"
  | Some (JBool false) => lit "false"
  | Some (JString s) => s
  | Some v => ToString_other v
  end.

(** ToBoolean. *)
Definition truthy (v : JSON) : bool :=
  match v with
  | JNull => false
  | JBool b => b
  | JNumber x => negb (PrimFloat.eqb x 0%float || negb (PrimFloat.eqb x x))
  | JString s => negb (jsstring_eqb s [])
  | JArray _ | JObject _ => true
  end.

(** ToBoolean of a value that may be [undefined]. *)
Definition truthy_opt (v : option JSON) : bool :=
  match v with
  | None => false
  | Some v => truthy v
  end.

(** The property [key] among the fields of an object (an object holds a key
    once). *)
Fixpoint lookup (key : jsstring) (fields : list (jsstring * JSON)) : option JSON :=
  match fields with
  | [] => None
  | (k, v) :: rest => if jsstring_eqb k key then Some v else lookup key rest
  end.

(** [v.key] for a parsed value [v]: a TypeError on [null], the property of an
    object, [undefined] elsewhere. *)
Definition get_property (key : jsstring) (v : JSON) : Thrown + option JSON :=
  match v with
  | JNull => inl (ErrorObject (lit "Cannot read properties of null"))
  | JObject fields => inr (lookup key fields)
  | _ => inr None
  end.

(** A property [k: v] of an object literal. *)
Notation "k ~> v" := (@pair string (option JSON) k%string v) (at level 60).

(** An object literal: a property whose value is [undefined] is left out by
    [JSON.stringify]. *)
Definition object (props : list (string * option JSON)) : JSON :=
  JObject (flat_map (fun kv => match snd kv with
                               | Some v => [(lit (fst kv), v)]
                               | None => []
                               end) props).

(* ------------------------------------------------------------------------- *)
(** ** The SSE relay: [streamSSE]                                             *)
(* ------------------------------------------------------------------------- *)

Module Relay.

(** A settled promise. *)
Inductive Settled :=
| Resolved (value : JSON)
| Rejected (reason : Thrown).

(** ['end'] resolves the promise with [lastEventData], ['error'] rejects it. *)
Definition settle (e : Ending) (lastEventData : JSON) : Settled :=
  match e with
  | StreamEnd => Resolved lastEventData
  | StreamError reason => Rejected reason
  end.

Section StreamSSE.

Context `{Host}.

(** The state of the caller, on which [onData] acts.  [onData] may throw: it
    returns the state it leaves and what it threw. *)
Variable St : Type.
Variable onData : jsstring -> St -> St * option Thrown.

(** The variables of the response callback, [buffer] and [lastEventData],
    with the state of the caller. *)
Record Vars := { buffer : jsstring; lastEventData : JSON; caller : St }.

(** The body of [for (const message of lines)].  [lastEventData] is assigned
    before [onData] runs, and the [catch] takes what [JSON.parse] or [onData]
    throws. *)
Definition on_message (v : JSON * St) (message : jsstring) : JSON * St :=
  if startsWith message (lit "data: ") then
    let jsonStr := substring_from 6 message in
    match JSON_parse jsonStr with
    | Some data => (data, fst (onData jsonStr (snd v)))
    | None => v
    end
  else v.

Definition for_messages (lines : list jsstring) (v : JSON * St) : JSON * St :=
  fold_left on_message lines v.

(** The ['data'] listener, from the decoded text of the chunk on. *)
Definition on_text (text : jsstring) (v : Vars) : Vars :=
  let buffer := buffer v ++ text in
  let lines := split_nn buffer in
  let (last, lines) := pop lines in
  let buffer := or_empty last in
  let (data, st) := for_messages lines (lastEventData v, caller v) in
  {| buffer := buffer; lastEventData := data; caller := st |}.

(** [response.on('data', (chunk) => ...)] *)
Definition on_data (v : Vars) (chunk : Buffer) : Vars :=
  on_text (toString chunk) v.

(** The variables when the response callback starts. *)
Definition initial (st : St) : Vars :=
  {| buffer := []; lastEventData := JNull; caller := st |}.

(** A response handled to its end: the promise resolves with [lastEventData]
    on ['end'] and is rejected on ['error']. *)
Definition respond (d : Downstream) (st : St) : St * Settled :=
  let v := fold_left on_data (chunks d) (initial st) in
  (caller v, settle (ending d) (lastEventData v)).

(** [streamSSE(url, data, onData)], awaited. *)
Definition streamSSE (url : jsstring) (data : JSON) (st : St) : St * Settled :=
  respond (http_post url data) st.

End StreamSSE.

Arguments Build_Vars {St} buffer lastEventData caller.
Arguments buffer {St} v.
Arguments lastEventData {St} v.
Arguments caller {St} v.
Arguments initial {St} st.

(** The relay observed from outside: the caller keeps the list of the texts
    [onData] was called with. *)
Definition record_call (jsonStr : jsstring) (calls : list jsstring)
  : list jsstring * option Thrown :=
  (calls ++ [jsonStr], None).

Definition observe `{Host} (d : Downstream) : list jsstring * Settled :=
  respond (list jsstring) record_call d [].

End Relay.

(* ------------------------------------------------------------------------- *)
(** ** The workflow server: [GET /status] and [POST /api/workflow]            *)
(* ------------------------------------------------------------------------- *)

Module Workflow.

Inductive Status := idle | busy.

Definition Status_text (s : Status) : jsstring :=
  match s with
  | idle => lit "idle"
  | busy => lit "busy"
  end.

(** A line of the console. *)
Inductive ConsoleLine :=
| console_log (text : jsstring)
| console_error (text : jsstring) (error : Thrown).

(** The process: the module variable [serverStatus], the console, and the exit
    code of a [setTimeout(() => process.exit(code), 1000)] once one is set. *)
Record Process := {
  serverStatus : Status;
  console : list ConsoleLine;
  exit_timer : option Z
}.

(** What a handler puts on its response: the body of [res.json(v)], a frame
    [data: ${JSON.stringify(v)}\n\n], or a frame [data: ${data}\n\n] around a
    text taken over as it is. *)
Inductive Written :=
| Json (v : JSON)
| Frame (v : JSON)
| FrameText (data : jsstring).

(** The response object [res] of one request. *)
Record Res := {
  statusCode : N;
  headers : list (jsstring * jsstring);
  written : list Written;
  ended : bool
}.

Definition fresh_res : Res :=
  {| statusCode := 200; headers := []; written := []; ended := false |}.

(** The [type] property of what was written, where the handler set one: a
    text forwarded as it is has the type its downstream service gave it, which
    the handler does not look at. *)
Definition type_of (w : Written) : option jsstring :=
  match w with
  | Frame (JObject fields) =>
      match lookup (lit "type") fields with
      | Some (JString t) => Some t
      | _ => None
      end
  | _ => None
  end.

Definition has_type (t : string) (w : Written) : bool :=
  match type_of w with
  | Some t' => jsstring_eqb t' (lit t)
  | None => false
  end.


(** The state a handler runs on. *)
Record State := { process : Process; res : Res }.

(** [req.body], destructured: a property that is absent is [undefined]. *)
Record Body := {
  prompt : option JSON;
  repoUrl : option JSON;
  branch : option JSON;
  directory : option JSON
}.

(** The environment variables, with their defaults. *)
Record Config := { GITHUB_PULL_API : jsstring; CLAUDE_CODE_API : jsstring }.

Definition default_config : Config :=
  {| GITHUB_PULL_API := lit "http://github-pull-api:4000";
     CLAUDE_CODE_API := lit "http://claude-code-api:3000" |}.

(** *** Statements of a handler: a state and exception monad *)

Inductive Outcome (A : Type) :=
| Returned (a : A)
| Threw (e : Thrown).
Arguments Returned {A} a.
Arguments Threw {A} e.

Definition M (A : Type) : Type := State -> State * Outcome A.

Definition ret {A} (a : A) : M A := fun s => (s, Returned a).

Definition bind {A B} (c : M A) (k : A -> M B) : M B :=
  fun s =>
    match c s with
    | (s', Returned a) => k a s'
    | (s', Threw e) => (s', Threw e)
    end.

(** [try { c } catch (error) { h error }] *)
Definition try_catch {A} (c : M A) (h : Thrown -> M A) : M A :=
  fun s =>
    match c s with
    | (s', Returned a) => (s', Returned a)
    | (s', Threw e) => h e s'
    end.

Declare Scope js_scope.
Delimit Scope js_scope with js.
Notation "x <- c ;; k" := (bind c (fun x => k))
  (at level 61, c at next level, right associativity) : js_scope.
Notation "c ;; k" := (bind c (fun _ => k))
  (at level 61, right associativity) : js_scope.

Definition on_res (f : Res -> Res) : M unit :=
  fun s => ({| process := process s; res := f (res s) |}, Returned tt).

Definition on_process (f : Process -> Process) : M unit :=
  fun s => ({| process := f (process s); res := res s |}, Returned tt).

(** [res.write(...)] *)
Definition write (w : Written) (r : Res) : Res :=
  {| statusCode := statusCode r; headers := headers r;
     written := written r ++ [w]; ended := ended r |}.

Definition res_write (w : Written) : M unit := on_res (write w).

(** [res.setHeader(name, value)] *)
Definition res_setHeader (name value : string) : M unit :=
  on_res (fun r => {| statusCode := statusCode r;
                      headers := headers r ++ [(lit name, lit value)];
                      written := written r; ended := ended r |}).

(** [res.end()] *)
Definition res_end : M unit :=
  on_res (fun r => {| statusCode := statusCode r; headers := headers r;
                      written := written r; ended := true |}).

(** [res.status(code).json(v)]: the body is sent and the response ends. *)
Definition res_status_json (code : N) (v : JSON) : M unit :=
  on_res (fun r => {| statusCode := code;
                      headers := headers r ++ [(lit "Content-Type", lit "application/json; charset=utf-8")];
                      written := written r ++ [Json v]; ended := true |}).

(** [res.json(v)]: the status code stays as it is, 200 on a fresh response. *)
Definition res_json (v : JSON) : M unit :=
  on_res (fun r => {| statusCode := statusCode r;
                      headers := headers r ++ [(lit "Content-Type", lit "application/json; charset=utf-8")];
                      written := written r ++ [Json v]; ended := true |}).

Definition set_serverStatus (v : Status) : M unit :=
  on_process (fun p => {| serverStatus := v; console := console p;
                          exit_timer := exit_timer p |}).

Definition console_write (l : ConsoleLine) : M unit :=
  on_process (fun p => {| serverStatus := serverStatus p;
                          console := console p ++ [l];
                          exit_timer := exit_timer p |}).

(** [setTimeout(() => process.exit(code), 1000)]: the first timer set is the
    one that ends the process. *)
Definition exit_after_delay (code : Z) : M unit :=
  on_process (fun p => {| serverStatus := serverStatus p; console := console p;
                          exit_timer := match exit_timer p with
                                        | Some c => Some c
                                        | None => Some code
                                        end |}).

Definition str (s : string) : option JSON := Some (JString (lit s)).
Definition num (x : float) : option JSON := Some (JNumber x).

Section Handlers.

Context `{Host}.
Variable config : Config.

(** [app.get('/status', ...)] *)
Definition getStatus : M unit :=
  fun s =>
    res_json (object [("status" ~> Some (JString (Status_text (serverStatus (process s)))))]) s.

(** [await streamSSE(url, data, onData)], where [onData] acts on the response
    and on the local variables [L] of the handler it closes over. *)
Definition await_streamSSE {L} (url : jsstring) (data : JSON)
  (onData : jsstring -> State * L -> (State * L) * option Thrown) (locals : L) : M L :=
  fun s =>
    match Relay.streamSSE (State * L) onData url data (s, locals) with
    | ((s', locals'), Relay.Resolved _) => (s', Returned locals')
    | ((s', _), Relay.Rejected e) => (s', Threw e)
    end.

(** The callback of step 1: forwards the progress of the pull and picks up
    [targetPath].  The argument of [res.write] is built first, so nothing is
    written when [JSON.parse(data)] throws there. *)
Definition pull_onData (data : jsstring) (sl : State * JSON)
  : (State * JSON) * option Thrown :=
  let (s, targetPath) := sl in
  match JSON_parse data with
  | None => ((s, targetPath), Some (ErrorObject (lit "SyntaxError")))
  | Some v =>
      let s := fst (res_write (Frame (object [("type" ~> str "pull_progress");
                                              ("data" ~> Some v)])) s) in
      match JSON_parse data with
      | None => ((s, targetPath), None)
      | Some parsed =>
          match get_property (lit "targetPath") parsed with
          | inr (Some p) => if truthy p then ((s, p), None) else ((s, targetPath), None)
          | inr None => ((s, targetPath), None)
          | inl _ => ((s, targetPath), None)
          end
      end
  end.

(** The callback of step 2: forwards the text as it is. *)
Definition execute_onData (data : jsstring) (sl : State * unit)
  : (State * unit) * option Thrown :=
  let (s, u) := sl in ((fst (res_write (FrameText data) s), u), None).

Local Open Scope js_scope.

(** The [try] block of the workflow handler. *)
Definition workflow_try (workflowId : jsstring) (b : Body) : M unit :=
  res_write (Frame (object [("type" ~> str "workflow_started");
                            ("workflowId" ~> Some (JString workflowId));
                            ("step" ~> num 1);
                            ("stepName" ~> str "pull_repository");
                            ("prompt" ~> prompt b);
                            ("repoUrl" ~> repoUrl b)])) ;;
  let pullUrl := GITHUB_PULL_API config ++ lit "/api/pull" in
  res_write (Frame (object [("type" ~> str "message");
                            ("message" ~> Some (JString (lit "Pulling repository: "
                                                       ++ ToString (repoUrl b))))])) ;;
  targetPath <- await_streamSSE pullUrl
                  (object [("repoUrl" ~> repoUrl b); ("branch" ~> branch b);
                           ("directory" ~> directory b)])
                  pull_onData (JString []) ;;
  res_write (Frame (object [("type" ~> str "workflow_step_complete");
                            ("step" ~> num 1);
                            ("stepName" ~> str "pull_repository");
                            ("targetPath" ~> Some targetPath)])) ;;
  res_write (Frame (object [("type" ~> str "workflow_started");
                            ("workflowId" ~> Some (JString workflowId));
                            ("step" ~> num 2);
                            ("stepName" ~> str "execute_claude_code");
                            ("prompt" ~> prompt b);
                            ("workspace" ~> Some targetPath)])) ;;
  let executeUrl := CLAUDE_CODE_API config ++ lit "/api/execute" in
  res_write (Frame (object [("type" ~> str "message");
                            ("message" ~> Some (JString (lit "Executing Claude Code in workspace: "
                                                       ++ ToString (Some targetPath))))])) ;;
  await_streamSSE executeUrl
    (object [("prompt" ~> prompt b); ("workspace" ~> Some targetPath);
             ("dangerouslySkipPermissions" ~> Some (JBool true))])
    execute_onData tt ;;
  res_write (Frame (object [("type" ~> str "workflow_complete");
                            ("workflowId" ~> Some (JString workflowId))])) ;;
  res_end ;;
  console_write (console_log (lit "Workflow completed successfully. Exiting process...")) ;;
  exit_after_delay 0.

(** [error instanceof Error ? error.message : 'Unknown error'] *)
Definition error_text (error : Thrown) : jsstring :=
  match error with
  | ErrorObject message => message
  | NotAnError => lit "Unknown error"
  end.

(** The [catch (error)] block of the workflow handler. *)
Definition workflow_catch (workflowId : jsstring) (error : Thrown) : M unit :=
  console_write (console_error (lit "Workflow error:") error) ;;
  res_write (Frame (object [("type" ~> str "workflow_error");
                            ("workflowId" ~> Some (JString workflowId));
                            ("error" ~> Some (JString (error_text error)))])) ;;
  res_end ;;
  console_write (console_log (lit "Workflow failed. Exiting process...")) ;;
  exit_after_delay 1.

(** [app.post('/api/workflow', ...)]; [workflowId] is what [randomUUID()]
    gives. *)
Definition postWorkflow (workflowId : jsstring) (b : Body) : M unit :=
  if negb (truthy_opt (prompt b)) || negb (truthy_opt (repoUrl b)) then
    res_status_json 400 (object [("error" ~> str "prompt and repoUrl are required")])
  else
    set_serverStatus busy ;;
    res_setHeader "Content-Type" "text/event-stream" ;;
    res_setHeader "Cache-Control" "no-cache" ;;
    res_setHeader "Connection" "keep-alive" ;;
    res_setHeader "X-Accel-Buffering" "no" ;;
    try_catch (workflow_try workflowId b) (workflow_catch workflowId).

(** A request served: the handler runs on the process as it is and on a fresh
    response. *)
Definition serve (handler : M unit) (p : Process) : Process * Res :=
  let s := fst (handler {| process := p; res := fresh_res |}) in
  (process s, res s).

End Handlers.

(** The process once the server listens (the console counted from there). *)
Definition boot : Process :=
  {| serverStatus := idle; console := []; exit_timer := None |}.

End Workflow.

(* ------------------------------------------------------------------------- *)
(** ** [LLMHelper]: the commit message                                        *)
(* ------------------------------------------------------------------------- *)

Module LLMHelper.

(** A block of [response.content]: a text block, or a block of another type. *)
Inductive ContentBlock :=
| text_block (text : jsstring)
| other_block (type : jsstring).

(** [await this.client.messages.create(...)]: the response, or what the call
    threw (an API error, a timeout, a lost connection). *)
Inductive Created :=
| response (content : list ContentBlock)
| failed (error : Thrown).

Record MessageParam := { role : jsstring; content : jsstring }.

Record CreateParams := {
  model : jsstring;
  max_tokens : N;
  messages : list MessageParam
}.

(** A call of the logger. *)
Inductive LogEntry :=
| logger_info (text : jsstring) (commitMessage : jsstring)
| logger_error (text : jsstring) (error : Thrown).

(** The client the constructor builds. *)
Inductive Client :=
| with_authToken (token : jsstring)
| with_apiKey (key : jsstring).

Definition new_LLMHelper (authToken : jsstring) : Client :=
  if startsWith authToken (lit "sk-ant-oat") then with_authToken authToken
  else with_apiKey authToken.

Definition QUOTE : jsstring := [34].

(** The template literal of the request. *)
Definition prompt_text (gitStatus gitDiff : jsstring) : jsstring :=
  lit "Analyze the following git changes and generate a concise, conventional commit message. Follow these rules:"
  ++ [LF] ++ lit "- Use conventional commit format (e.g., "
  ++ QUOTE ++ lit "feat:" ++ QUOTE ++ lit ", "
  ++ QUOTE ++ lit "fix:" ++ QUOTE ++ lit ", "
  ++ QUOTE ++ lit "refactor:" ++ QUOTE ++ lit ", "
  ++ QUOTE ++ lit "docs:" ++ QUOTE ++ lit ", etc.)"
  ++ [LF] ++ lit "- Keep the summary line under 72 characters"
  ++ [LF] ++ lit "- Be specific about what changed"
  ++ [LF] ++ lit "- Only return the commit message, nothing else"
  ++ [LF; LF] ++ lit "Git status:"
  ++ [LF] ++ gitStatus
  ++ [LF; LF] ++ lit "Git diff:"
  ++ [LF] ++ substring 0 4000 gitDiff
  ++ [LF; LF] ++ lit "Commit message:".

Definition create_params (gitStatus gitDiff : jsstring) : CreateParams :=
  {| model := lit "claude-haiku-4-5-20251001";
     max_tokens := 200;
     messages := [ {| role := lit "user"; content := prompt_text gitStatus gitDiff |} ] |}.

Definition FALLBACK : jsstring := lit "chore: auto-commit changes".

Section Generate.

(** The client's [messages.create], awaited. *)
Variable create : Client -> CreateParams -> Created.
Variable client : Client.

(** The [try] block up to [commitMessage]: the message, or what was thrown.
    [response.content[0]] is [undefined] on an empty array, and reading its
    [type] throws a TypeError. *)
Definition generate_try (gitStatus gitDiff : jsstring) : Thrown + jsstring :=
  match create client (create_params gitStatus gitDiff) with
  | failed error => inl error
  | response [] => inl (ErrorObject (lit "Cannot read properties of undefined"))
  | response (text_block text :: _) => inr (trim text)
  | response (other_block _ :: _) =>
      inl (ErrorObject (lit "Unexpected response type from LLM"))
  end.

(** [generateCommitMessage(gitStatus, gitDiff)]: the string the promise
    resolves with, and the logger calls made. *)
Definition generateCommitMessage (gitStatus gitDiff : jsstring)
  : jsstring * list LogEntry :=
  match generate_try gitStatus gitDiff with
  | inr commitMessage =>
      (commitMessage, [logger_info (lit "Generated commit message") commitMessage])
  | inl error =>
      (FALLBACK, [logger_error (lit "Failed to generate commit message") error])
  end.

End Generate.

End LLMHelper.

(* ------------------------------------------------------------------------- *)
(** ** [ClaudeCodeProvider]: the options of the query                         *)
(* ------------------------------------------------------------------------- *)

Module ClaudeCodeProvider.

(** [options.providerOptions] *)
Record OptionBag := {
  bag_model : option jsstring;
  skipPermissions : option bool
}.

(** [ProviderOptions] *)
Record ProviderOptions := {
  resumeSessionId : option jsstring;
  providerOptions : option OptionBag
}.

Inductive PermissionMode := bypassPermissions | default.

(** The [Options] of the SDK that the provider sets. *)
Record Options := {
  model : jsstring;
  cwd : jsstring;
  systemPrompt : jsstring;
  allowDangerouslySkipPermissions : bool;
  permissionMode : PermissionMode;
  resume : option jsstring
}.

(** The fields of the provider. *)
Record Provider := { this_model : jsstring; workspace : jsstring }.

(** [a || b] on strings that may be [undefined] *)
Definition or_string (a : option jsstring) (b : jsstring) : jsstring :=
  match a with
  | Some (c :: s) => c :: s
  | _ => b
  end.

(** [a ?? b] *)
Definition nullish {A} (a : option A) (b : A) : A :=
  match a with
  | Some v => v
  | None => b
  end.

(** The constructor. *)
Definition new_ClaudeCodeProvider (workspace : jsstring) (model : option jsstring)
  : Provider :=
  {| this_model := or_string model (lit "claude-sonnet-4-5-20250929");
     workspace := workspace |}.

(** The bag [{}] that [providerOptions = {}] puts for [undefined]. *)
Definition empty_bag : OptionBag :=
  {| bag_model := None; skipPermissions := None |}.

Definition createQueryOptions (this : Provider) (options : ProviderOptions) : Options :=
  let bag := nullish (providerOptions options) empty_bag in
  let skip := nullish (skipPermissions bag) true in
  {| model := or_string (bag_model bag) (this_model this);
     cwd := workspace this;
     systemPrompt :=
       lit "You are Claude Code, running in a containerized environment. The working directory is "
       ++ workspace this ++ lit ".";
     allowDangerouslySkipPermissions := skip;
     permissionMode := if skip then bypassPermissions else default;
     resume := match resumeSessionId options with
               | Some (c :: s) => Some (c :: s)
               | _ => None
               end |}.

(** What the caller set for [skipPermissions], if anything. *)
Definition requested_skip (options : ProviderOptions) : option bool :=
  match providerOptions options with
  | Some bag => skipPermissions bag
  | None => None
  end.

(** The argument of [query]. *)
Record QueryArgs := { query_prompt : jsstring; query_options : Options }.

Section Execute.

(** The messages of the SDK, and its [query]: the messages the stream yields
    and what it throws, if it does. *)
Variable SDKMessage : Type.
Variable query : QueryArgs -> list SDKMessage * option Thrown.

Inductive ProviderStreamEvent :=
| assistant_message (data : SDKMessage).

(** The call [execute] makes. *)
Definition query_call (this : Provider) (userRequest : jsstring)
  (options : ProviderOptions) : QueryArgs :=
  {| query_prompt := userRequest; query_options := createQueryOptions this options |}.

(** [execute(userRequest, options, onEvent)]: the events passed to [onEvent]
    and what is thrown on to the caller. *)
Definition execute (this : Provider) (userRequest : jsstring)
  (options : ProviderOptions) : list ProviderStreamEvent * option Thrown :=
  let (stream, error) := query (query_call this userRequest options) in
  (map assistant_message stream, error).

End Execute.

End ClaudeCodeProvider.

(* ------------------------------------------------------------------------- *)
(** ** A host for concrete runs                                               *)
(* ------------------------------------------------------------------------- *)

Module Sample.

(** The characters of a string literal up to its closing quote, for a literal
    with no escape and no control character; the text after the quote. *)
Fixpoint string_body (s : jsstring) : option (jsstring * jsstring) :=
  match s with
  | [] => None
  | c :: s' =>
      if c =? 34 then Some ([], s')
      else if (c =? 92) || (c <? 32) then None
      else match string_body s' with
           | Some (body, rest) => Some (c :: body, rest)
           | None => None
           end
  end.

(** [null], [true], [false] or a string literal at the head of the text. *)
Definition atom (s : jsstring) : option (JSON * jsstring) :=
  if startsWith s (lit "null") then Some (JNull, skipn 4 s)
  else if startsWith s (lit "true") then Some (JBool true, skipn 4 s)
  else if startsWith s (lit "false") then Some (JBool false, skipn 5 s)
  else match s with
       | 34 :: s' =>
           match string_body s' with
           | Some (body, rest) => Some (JString body, rest)
           | None => None
           end
       | _ => None
       end.

(** [JSON.parse] on a fragment of JSON: an atom, or an object [{"key":atom}]
    of one property, written without white space.  On these texts it gives
    what [JSON.parse] gives; it refuses every other text, and so agrees with
    [JSON.parse] on the texts that are not JSON. *)
Definition parse (s : jsstring) : option JSON :=
  match s with
  | 123 :: 34 :: s1 =>
      match string_body s1 with
      | Some (key, 58 :: s2) =>
          match atom s2 with
          | Some (v, [125]) => Some (JObject [(key, v)])
          | _ => None
          end
      | _ => None
      end
  | _ =>
      match atom s with
      | Some (v, []) => Some v
      | _ => None
      end
  end.

(** The host with this parser and the network [net]. *)
Definition host (net : jsstring -> JSON -> Downstream) : Host :=
  {| JSON_parse := parse;
     http_post := net;
     ToString_other := fun _ => lit "[object Object]" |}.

(** A network that answers nothing and ends. *)
Definition silent : jsstring -> JSON -> Downstream :=
  fun _ _ => {| chunks := []; ending := StreamEnd |}.

(** The host whose network gives the response [d] to every request. *)
Definition answering (d : Downstream) : Host := host (fun _ _ => d).

(** A response that ends after the given chunks. *)
Definition ends_after (cs : list Buffer) : Downstream :=
  {| chunks := cs; ending := StreamEnd |}.

(** The frame [data: "é"] with its delimiter, cut inside the two bytes
    C3 A9 of the UTF-8 form of é. *)
Definition e_acute_head : Buffer := bytes "data: " ++ [Byte.x22; Byte.xc3].
Definition e_acute_tail : Buffer := [Byte.xa9; Byte.x22; Byte.x0a; Byte.x0a].

(** The text ["é"], quotes included, and the text the two halves decode to. *)
Definition e_acute_json : jsstring := [34; 0xE9; 34].
Definition replaced_json : jsstring := [34; 0xFFFD; 0xFFFD; 34].


(** A process that is busy. *)
Definition busy_process : Workflow.Process :=
  {| Workflow.serverStatus := Workflow.busy; Workflow.console := [];
     Workflow.exit_timer := None |}.

(** A request with both required fields. *)
Definition request : Workflow.Body :=
  {| Workflow.prompt := Some (JString (lit "Add a README"));
     Workflow.repoUrl := Some (JString (lit "https://github.com/user/repo.git"));
     Workflow.branch := None; Workflow.directory := None |}.

(** A request without [repoUrl]. *)
Definition request_without_repoUrl : Workflow.Body :=
  {| Workflow.prompt := Some (JString (lit "Add a README"));
     Workflow.repoUrl := None;
     Workflow.branch := None; Workflow.directory := None |}.

Definition workflowId : jsstring := lit "0b0e7a52-5f0c-4b7e-9d3a-2f1c8e6a4d10".

(** A client whose call times out. *)
Definition timing_out (c : LLMHelper.Client) (p : LLMHelper.CreateParams)
  : LLMHelper.Created :=
  LLMHelper.failed (ErrorObject (lit "Request timed out.")).

(** A client that answers with one text block. *)
Definition answering_text (c : LLMHelper.Client) (p : LLMHelper.CreateParams)
  : LLMHelper.Created :=
  LLMHelper.response [LLMHelper.text_block (lit " feat: add README ")].

Definition api_client : LLMHelper.Client :=
  LLMHelper.new_LLMHelper (lit "sk-ant-api03-key").

(** A provider, and options that say nothing of permissions. *)
Definition provider : ClaudeCodeProvider.Provider :=
  ClaudeCodeProvider.new_ClaudeCodeProvider (lit "/workspace") None.

Definition plain_options : ClaudeCodeProvider.ProviderOptions :=
  {| ClaudeCodeProvider.resumeSessionId := None;
     ClaudeCodeProvider.providerOptions := None |}.

(** A capability that answers with the permission mode it was invoked in. *)
Definition echo_mode (q : ClaudeCodeProvider.QueryArgs)
  : list ClaudeCodeProvider.PermissionMode * option Thrown :=
  ([ClaudeCodeProvider.permissionMode (ClaudeCodeProvider.query_options q)], None).

Definition enforcing_options : ClaudeCodeProvider.ProviderOptions :=
  {| ClaudeCodeProvider.resumeSessionId := None;
     ClaudeCodeProvider.providerOptions :=
       Some {| ClaudeCodeProvider.bag_model := None;
               ClaudeCodeProvider.skipPermissions := Some false |} |}.

(** Two frames in two chunks, the cut inside the first frame. *)
Definition two_frames : Downstream :=
  ends_after [bytes "data: tr"; bytes "ue" ++ [Byte.x0a; Byte.x0a]
                                ++ bytes "data: false" ++ [Byte.x0a; Byte.x0a]].

(** A frame that does not parse, then one that does. *)
Definition broken_then_true : Downstream :=
  ends_after [bytes "data: {oops" ++ [Byte.x0a; Byte.x0a]
              ++ bytes "data: true" ++ [Byte.x0a; Byte.x0a]].

End Sample.

(* ------------------------------------------------------------------------- *)
(** ** The relay as the specification words it                                *)
(* ------------------------------------------------------------------------- *)

Module RelaySpec.

(** A text holds the delimiter, two line feeds in a row. *)
Fixpoint contains_nn (s : jsstring) : bool :=
  match s with
  | c :: s' =>
      match s' with
      | d :: _ => ((c =? LF) && (d =? LF)) || contains_nn s'
      | [] => false
      end
  | [] => false
  end.

(** A text cut at the delimiter, in the words of section 4.3: the complete
    frames, each followed by the double newline, and then the rest, make up
    the text; neither a frame nor the rest holds the delimiter; and a frame
    ends where the delimiter first occurs, so that no frame ends with a
    newline. *)
Definition cuts (text : jsstring) (frames : list jsstring) (rest : jsstring) : Prop :=
  List.concat (map (fun f => f ++ [LF; LF]) frames) ++ rest = text
  /\ Forall (fun p => contains_nn p = false) (frames ++ [rest])
  /\ Forall (fun f => last f 0 <> LF) frames.

(** The segments of the buffer but the last: the complete frames. *)
Definition complete_frames (buffer : jsstring) : list jsstring :=
  removelast (split_nn buffer).

(** The last segment, which stays in the buffer. *)
Definition retained (buffer : jsstring) : jsstring :=
  last (split_nn buffer) [].

(** A chunk of ASCII bytes. *)
Definition is_ascii (chunk : Buffer) : bool :=
  forallb (fun b => Byte.to_N b <=? 0x7F) chunk.

(** The text a downstream response carries, chunk after chunk. *)
Definition stream_text (d : Downstream) : jsstring :=
  List.concat (map toString (chunks d)).

(** The complete frames of a whole response. *)
Definition stream_frames (d : Downstream) : list jsstring :=
  complete_frames (stream_text d).

Section Spec.

Context `{Host}.

(** The record of a complete frame: a frame that begins with the marker has
    it stripped and the remainder parsed; a frame without the marker, or one
    whose remainder does not parse, has none.  With the record comes the text
    it was parsed from. *)
Definition record_of (frame : jsstring) : option (jsstring * JSON) :=
  if startsWith frame (lit "data: ") then
    match JSON_parse (skipn 6 frame) with
    | Some r => Some (skipn 6 frame, r)
    | None => None
    end
  else None.

(** The records of a list of frames, in order. *)
Fixpoint records (frames : list jsstring) : list (jsstring * JSON) :=
  match frames with
  | [] => []
  | f :: frames' =>
      match record_of f with
      | Some r => r :: records frames'
      | None => records frames'
      end
  end.

Variable St : Type.
Variable onData : jsstring -> St -> St * option Thrown.

(** The records handed to the caller, one after the other. *)
Definition deliver (rs : list (jsstring * JSON)) (st : St) : St :=
  fold_left (fun st r => fst (onData (fst r) st)) rs st.

(** The frames in the words of section 4.3, one after the other, from the
    last record and the state of the caller before them to those after them:
    a frame that begins with the marker has the marker stripped and the
    remainder parsed; the record becomes the last record and the remainder is
    handed to the caller; a remainder that does not parse, and a frame without
    the marker, leave both as they are. *)
Inductive handled : list jsstring -> JSON * St -> JSON * St -> Prop :=
| handled_none v : handled [] v v
| handled_record body data frames last st out :
    JSON_parse body = Some data ->
    handled frames (data, fst (onData body st)) out ->
    handled ((lit "data: " ++ body) :: frames) (last, st) out
| handled_malformed body frames v out :
    JSON_parse body = None ->
    handled frames v out ->
    handled ((lit "data: " ++ body) :: frames) v out
| handled_unmarked frame frames v out :
    (forall body, frame <> lit "data: " ++ body) ->
    handled frames v out ->
    handled (frame :: frames) v out.

End Spec.

End RelaySpec.

(* ------------------------------------------------------------------------- *)
(** ** What a workflow puts on its response, step by step                     *)
(* ------------------------------------------------------------------------- *)

Module WorkflowSpec.

Import Workflow.

(** The request carries both required fields. *)
Definition well_formed (b : Body) : bool :=
  truthy_opt (prompt b) && truthy_opt (repoUrl b).

(** The headers of an event stream. *)
Definition sse_headers : list (jsstring * jsstring) :=
  [(lit "Content-Type", lit "text/event-stream");
   (lit "Cache-Control", lit "no-cache");
   (lit "Connection", lit "keep-alive");
   (lit "X-Accel-Buffering", lit "no")].

(** [targetPath] after one more record of the pull. *)
Definition pick_targetPath (targetPath : JSON) (r : jsstring * JSON) : JSON :=
  match get_property (lit "targetPath") (snd r) with
  | inr (Some p) => if truthy p then p else targetPath
  | _ => targetPath
  end.

Definition pull_progress_frame (r : jsstring * JSON) : Written :=
  Frame (object ["type" ~> str "pull_progress"; "data" ~> Some (snd r)]).

Definition forwarded_frame (r : jsstring * JSON) : Written :=
  FrameText (fst r).

(** Several writes in a row. *)
Definition write_all (ws : list Written) (s : State) : State :=
  {| process := process s;
     res := {| statusCode := statusCode (res s); headers := headers (res s);
               written := written (res s) ++ ws; ended := ended (res s) |} |}.

Section Trace.

Context `{Host}.
Variable config : Config.
Variable workflowId : jsstring.
Variable b : Body.

(** The response of the pull service to this workflow, and its records. *)
Definition pull_response : Downstream :=
  http_post (GITHUB_PULL_API config ++ lit "/api/pull")
    (object ["repoUrl" ~> repoUrl b; "branch" ~> branch b;
             "directory" ~> directory b]).

Definition pull_records : list (jsstring * JSON) :=
  RelaySpec.records (RelaySpec.stream_frames pull_response).

Definition targetPath_of_pull : JSON :=
  fold_left pick_targetPath pull_records (JString []).

(** The response of the execute service, and its records. *)
Definition execute_response : Downstream :=
  http_post (CLAUDE_CODE_API config ++ lit "/api/execute")
    (object ["prompt" ~> prompt b; "workspace" ~> Some targetPath_of_pull;
             "dangerouslySkipPermissions" ~> Some (JBool true)]).

Definition execute_records : list (jsstring * JSON) :=
  RelaySpec.records (RelaySpec.stream_frames execute_response).

(** The frames of step 1, up to the end of the pull. *)
Definition step1_frames : list Written :=
  [Frame (object ["type" ~> str "workflow_started";
                  "workflowId" ~> Some (JString workflowId);
                  "step" ~> num 1;
                  "stepName" ~> str "pull_repository";
                  "prompt" ~> prompt b;
                  "repoUrl" ~> repoUrl b]);
   Frame (object ["type" ~> str "message";
                  "message" ~> Some (JString (lit "Pulling repository: "
                                              ++ ToString (repoUrl b)))])]
  ++ map pull_progress_frame pull_records.

(** The frames of step 2, up to the end of the execution. *)
Definition step2_frames : list Written :=
  [Frame (object ["type" ~> str "workflow_step_complete";
                  "step" ~> num 1;
                  "stepName" ~> str "pull_repository";
                  "targetPath" ~> Some targetPath_of_pull]);
   Frame (object ["type" ~> str "workflow_started";
                  "workflowId" ~> Some (JString workflowId);
                  "step" ~> num 2;
                  "stepName" ~> str "execute_claude_code";
                  "prompt" ~> prompt b;
                  "workspace" ~> Some targetPath_of_pull]);
   Frame (object ["type" ~> str "message";
                  "message" ~> Some (JString (lit "Executing Claude Code in workspace: "
                                              ++ ToString (Some targetPath_of_pull)))])]
  ++ map forwarded_frame execute_records.

(** The frame of the [catch] block. *)
Definition error_frame (error : Thrown) : Written :=
  Frame (object ["type" ~> str "workflow_error";
                 "workflowId" ~> Some (JString workflowId);
                 "error" ~> Some (JString (error_text error))]).

Definition complete_frame : Written :=
  Frame (object ["type" ~> str "workflow_complete";
                 "workflowId" ~> Some (JString workflowId)]).

(** The fatal error of the workflow, if one occurs: the pull is rejected, or
    the pull ends and the execution is rejected. *)
Definition fatal_error : option Thrown :=
  match ending pull_response with
  | StreamError e => Some e
  | StreamEnd =>
      match ending execute_response with
      | StreamError e => Some e
      | StreamEnd => None
      end
  end.

(** All that a well-formed workflow writes. *)
Definition workflow_frames : list Written :=
  match ending pull_response with
  | StreamError e => step1_frames ++ [error_frame e]
  | StreamEnd =>
      match ending execute_response with
      | StreamError e => step1_frames ++ step2_frames ++ [error_frame e]
      | StreamEnd => step1_frames ++ step2_frames ++ [complete_frame]
      end
  end.

(** The lines it leaves on the console and the exit code it arms. *)
Definition workflow_console : list ConsoleLine :=
  match fatal_error with
  | Some e => [console_error (lit "Workflow error:") e;
               console_log (lit "Workflow failed. Exiting process...")]
  | None => [console_log (lit "Workflow completed successfully. Exiting process...")]
  end.

Definition workflow_exit_code : Z :=
  match fatal_error with
  | Some _ => 1%Z
  | None => 0%Z
  end.

End Trace.

End WorkflowSpec.

(* ------------------------------------------------------------------------- *)
(** ** Frames as the handler writes them, and the server request by request   *)
(* ------------------------------------------------------------------------- *)

Module Framing.

(** The text of [res.write(`data: ${data}\n\n`)]. *)
Definition frame_text (data : jsstring) : jsstring :=
  lit "data: " ++ data ++ [LF; LF].

(** Frames written one after the other. *)
Definition framed (texts : list jsstring) : jsstring :=
  List.concat (map frame_text texts).

(** A text that holds no double newline and does not end with a newline. *)
Definition frameable (data : jsstring) : bool :=
  negb (RelaySpec.contains_nn data) && negb (last data 0 =? LF).

End Framing.

Module Server.

Import Workflow WorkflowSpec.

(** [app.get('/health', ...)] *)
Definition getHealth (config : Config) : M unit :=
  res_json (object ["status" ~> str "ok";
                    "services" ~> Some (object
                      ["githubPullApi" ~> Some (JString (GITHUB_PULL_API config));
                       "claudeCodeApi" ~> Some (JString (CLAUDE_CODE_API config))])]).

(** A request to one of the three routes. *)
Inductive Request :=
| GET_health
| GET_status
| POST_workflow (workflowId : jsstring) (body : Body).

(** The handler of a request. *)
Definition handler `{Host} (config : Config) (r : Request) : M unit :=
  match r with
  | GET_health => getHealth config
  | GET_status => getStatus
  | POST_workflow workflowId body => postWorkflow config workflowId body
  end.

(** Requests served by one process, one after the other: the process they
    leave and the responses. *)
Fixpoint serve_all `{Host} (config : Config) (rs : list Request) (p : Process)
  : Process * list Res :=
  match rs with
  | [] => (p, [])
  | r :: rs' =>
      let (p1, response) := serve (handler config r) p in
      let (p2, responses) := serve_all config rs' p1 in
      (p2, response :: responses)
  end.

(** A workflow request with both required fields. *)
Definition starts_a_job (r : Request) : bool :=
  match r with
  | POST_workflow _ body => well_formed body
  | _ => false
  end.




End Server.

Module Scenarios.

(** A response whose last frame lacks its double newline. *)
Definition unterminated : Downstream :=
  Sample.ends_after [bytes "data: true" ++ [Byte.x0a; Byte.x0a] ++ bytes "data: false"].

Definition terminated : Downstream :=
  Sample.ends_after [bytes "data: true" ++ [Byte.x0a; Byte.x0a]].

(** Three frames in chunks cut at odd places. *)
Definition three_frames_cut : list Buffer :=
  [bytes "da"; bytes "ta: true" ++ [Byte.x0a]; [Byte.x0a] ++ bytes "data: nu";
   bytes "ll" ++ [Byte.x0a; Byte.x0a] ++ bytes "data: false" ++ [Byte.x0a; Byte.x0a]].

(** The same three frames among frames that are dropped: one that does not
    parse, one without the marker, and an unterminated tail. *)
Definition broken_frames_cut : list Buffer :=
  [bytes "data: {oops" ++ [Byte.x0a]; [Byte.x0a] ++ bytes "da";
   bytes "ta: true" ++ [Byte.x0a; Byte.x0a] ++ bytes ": ping" ++ [Byte.x0a; Byte.x0a];
   bytes "data: null" ++ [Byte.x0a; Byte.x0a] ++ bytes "data: false"
   ++ [Byte.x0a; Byte.x0a] ++ bytes "data: tr"].

(** A callback that throws on every call after counting it. *)
Definition counting_then_throwing (data : jsstring) (n : nat) : nat * option Thrown :=
  (S n, Some (ErrorObject (lit "boom"))).


(** A well-formed request, a probe and a request without [prompt]. *)
Definition missing_prompt : Workflow.Body :=
  {| Workflow.prompt := None;
     Workflow.repoUrl := Some (JString (lit "https://github.com/user/repo.git"));
     Workflow.branch := None; Workflow.directory := None |}.

Definition traffic : list Server.Request :=
  [Server.GET_status; Server.POST_workflow Sample.workflowId missing_prompt;
   Server.POST_workflow Sample.workflowId Sample.request; Server.GET_health;
   Server.GET_status].

(** A first block that is not text, with a text block after it. *)
Definition tool_then_text (c : LLMHelper.Client) (p : LLMHelper.CreateParams)
  : LLMHelper.Created :=
  LLMHelper.response [LLMHelper.other_block (lit "tool_use");
                      LLMHelper.text_block (lit "feat: add README")].

(** A text block of white space only. *)
Definition blank_text (c : LLMHelper.Client) (p : LLMHelper.CreateParams)
  : LLMHelper.Created :=
  LLMHelper.response [LLMHelper.text_block [32; 10; 9]].

End Scenarios.

Module LLMHelperSpec.

(** The first block of the content is a text block. *)
Definition first_is_text (content : list LLMHelper.ContentBlock) : bool :=
  match content with
  | LLMHelper.text_block _ :: _ => true
  | _ => false
  end.

(** White space at the head or at the end of a string. *)
Definition space_around (s : jsstring) : bool :=
  match s with
  | [] => false
  | c :: _ => is_space c || is_space (last s 0)
  end.

(** The length of the request text without the status and the diff. *)
Definition PROMPT_FRAME : nat := List.length (LLMHelper.prompt_text [] []).

End LLMHelperSpec.

(* ------------------------------------------------------------------------- *)
(** ** The process event by event: requests, chunks, ends, errors, the exit   *)
(* ------------------------------------------------------------------------- *)

(** The handlers above run a request from its arrival to its end.  In the
    process they run in turns: the workflow handler gives way at each [await],
    the chunks of a downstream response arrive one by one, other requests
    arrive in between, a response may never end, and one second after a job
    the process exits.  Here every turn is one event. *)
Module Live.

Import Workflow WorkflowSpec.

Local Open Scope js_scope.

Inductive Route :=
| health
| status
| workflow (workflowId : jsstring) (req_body : option Body).

(** Where the handler of a connection stands: at [await streamSSE(pullUrl ...)]
    or at [await streamSSE(executeUrl ...)], with the variables of the response
    callback and [targetPath]; returned; or left by an exception. *)
Inductive Stage :=
| awaiting_pull (workflowId : jsstring) (b : Body)
    (buffer : jsstring) (lastEventData : JSON) (targetPath : JSON)
| awaiting_execute (workflowId : jsstring) (buffer : jsstring) (lastEventData : JSON)
| returned
| threw (error : Thrown).

Record Connection := { route : Route; response : Res; stage : Stage }.

(** The process with its connections in order of arrival, the requests it
    sent downstream, and its exit code once it has exited. *)
Record System := {
  proc : Process;
  connections : list Connection;
  sent : list (jsstring * JSON);
  exited : option Z
}.

(** A request arrives; a chunk, the end or an error of the downstream
    response a connection waits for; the exit timer fires. *)
Inductive Event :=
| arrives (r : Route)
| data (connection : nat) (chunk : Buffer)
| stream_end (connection : nat)
| stream_error (connection : nat) (error : Thrown)
| timer_fires.


Definition started (p : Process) : System :=
  {| proc := p; connections := []; sent := []; exited := None |}.

Fixpoint replace {A} (i : nat) (x : A) (l : list A) : list A :=
  match l with
  | [] => []
  | y :: l' =>
      match i with
      | O => x :: l'
      | S i' => y :: replace i' x l'
      end
  end.

(** Statements run on the process and on the response of a connection. *)
Definition on_state {A} (m : M A) (p : Process) (r : Res) : Process * Res :=
  let s := fst (m {| process := p; res := r |}) in (process s, res s).

(** [const { prompt, repoUrl, branch, directory } = req.body]: a TypeError
    when [req.body] is [undefined], which is what express 5 leaves when no
    body was parsed (the JSON middleware of express 4 puts [{}]). *)
Definition destructure (req_body : option Body) : M Body :=
  fun s =>
    match req_body with
    | Some b => (s, Returned b)
    | None =>
        (s, Threw (ErrorObject
                     (lit "Cannot destructure property 'prompt' of 'req.body' as it is undefined.")))
    end.

Section Turns.

Context `{Host}.
Variable config : Config.

(** [app.post('/api/workflow', ...)] from its first statement on;
    [postWorkflow] is the handler after the destructuring. *)
Definition postWorkflow_of_request (workflowId : jsstring) (req_body : option Body)
  : M unit :=
  b <- destructure req_body ;; postWorkflow config workflowId b.

(** The workflow handler between its [await]s.  Up to the first one: *)
Definition opening (workflowId : jsstring) (b : Body) : M unit :=
  set_serverStatus busy ;;
  res_setHeader "Content-Type" "text/event-stream" ;;
  res_setHeader "Cache-Control" "no-cache" ;;
  res_setHeader "Connection" "keep-alive" ;;
  res_setHeader "X-Accel-Buffering" "no" ;;
  res_write (Frame (object ["type" ~> str "workflow_started";
                            "workflowId" ~> Some (JString workflowId);
                            "step" ~> num 1;
                            "stepName" ~> str "pull_repository";
                            "prompt" ~> prompt b;
                            "repoUrl" ~> repoUrl b])) ;;
  res_write (Frame (object ["type" ~> str "message";
                            "message" ~> Some (JString (lit "Pulling repository: "
                                                       ++ ToString (repoUrl b)))])).

(** The request of [streamSSE(pullUrl, { repoUrl, branch, directory }, ...)]. *)
Definition pull_request (b : Body) : jsstring * JSON :=
  (GITHUB_PULL_API config ++ lit "/api/pull",
   object ["repoUrl" ~> repoUrl b; "branch" ~> branch b; "directory" ~> directory b]).

(** From the end of the pull to the second [await]: *)
Definition after_pull (workflowId : jsstring) (b : Body) (targetPath : JSON) : M unit :=
  res_write (Frame (object ["type" ~> str "workflow_step_complete";
                            "step" ~> num 1;
                            "stepName" ~> str "pull_repository";
                            "targetPath" ~> Some targetPath])) ;;
  res_write (Frame (object ["type" ~> str "workflow_started";
                            "workflowId" ~> Some (JString workflowId);
                            "step" ~> num 2;
                            "stepName" ~> str "execute_claude_code";
                            "prompt" ~> prompt b;
                            "workspace" ~> Some targetPath])) ;;
  res_write (Frame (object ["type" ~> str "message";
                            "message" ~> Some (JString (lit "Executing Claude Code in workspace: "
                                                       ++ ToString (Some targetPath)))])).

(** The request of [streamSSE(executeUrl, { prompt, workspace, ... }, ...)]. *)
Definition execute_request (b : Body) (targetPath : JSON) : jsstring * JSON :=
  (CLAUDE_CODE_API config ++ lit "/api/execute",
   object ["prompt" ~> prompt b; "workspace" ~> Some targetPath;
           "dangerouslySkipPermissions" ~> Some (JBool true)]).

(** From the end of the execution to the end of the [try] block: *)
Definition closing (workflowId : jsstring) : M unit :=
  res_write (Frame (object ["type" ~> str "workflow_complete";
                            "workflowId" ~> Some (JString workflowId)])) ;;
  res_end ;;
  console_write (console_log (lit "Workflow completed successfully. Exiting process...")) ;;
  exit_after_delay 0.

(** A request arrives and its handler runs to its first [await] or to its
    return: the process it leaves, the connection, the requests sent. *)
Definition connect (r : Route) (p : Process)
  : (Process * Connection) * list (jsstring * JSON) :=
  match r with
  | health =>
      let (p', response) := on_state (Server.getHealth config) p fresh_res in
      ((p', {| route := r; response := response; stage := returned |}), [])
  | status =>
      let (p', response) := on_state getStatus p fresh_res in
      ((p', {| route := r; response := response; stage := returned |}), [])
  | workflow workflowId req_body =>
      match destructure req_body {| process := p; res := fresh_res |} with
      | (_, Threw error) =>
          ((p, {| route := r; response := fresh_res; stage := threw error |}), [])
      | (_, Returned b) =>
          if negb (truthy_opt (prompt b)) || negb (truthy_opt (repoUrl b)) then
            let (p', response) :=
              on_state (res_status_json 400
                          (object ["error" ~> str "prompt and repoUrl are required"]))
                p fresh_res in
            ((p', {| route := r; response := response; stage := returned |}), [])
          else
            let (p', response) := on_state (opening workflowId b) p fresh_res in
            ((p', {| route := r; response := response;
                     stage := awaiting_pull workflowId b [] JNull (JString []) |}),
             [pull_request b])
      end
  end.

(** [response.on('data', ...)] of the response the connection waits for. *)
Definition receive (chunk : Buffer) (p : Process) (c : Connection)
  : (Process * Connection) * list (jsstring * JSON) :=
  match stage c with
  | awaiting_pull workflowId b buffer lastEventData targetPath =>
      let v := Relay.on_data (State * JSON) pull_onData
                 {| Relay.buffer := buffer; Relay.lastEventData := lastEventData;
                    Relay.caller := ({| process := p; res := response c |}, targetPath) |}
                 chunk in
      ((process (fst (Relay.caller v)),
        {| route := route c; response := res (fst (Relay.caller v));
           stage := awaiting_pull workflowId b (Relay.buffer v) (Relay.lastEventData v)
                      (snd (Relay.caller v)) |}), [])
  | awaiting_execute workflowId buffer lastEventData =>
      let v := Relay.on_data (State * unit) execute_onData
                 {| Relay.buffer := buffer; Relay.lastEventData := lastEventData;
                    Relay.caller := ({| process := p; res := response c |}, tt) |}
                 chunk in
      ((process (fst (Relay.caller v)),
        {| route := route c; response := res (fst (Relay.caller v));
           stage := awaiting_execute workflowId (Relay.buffer v) (Relay.lastEventData v) |}),
       [])
  | returned | threw _ => ((p, c), [])
  end.

(** [response.on('end', ...)]: the promise resolves and the handler goes on to
    its next [await] or to its return. *)
Definition finish (p : Process) (c : Connection)
  : (Process * Connection) * list (jsstring * JSON) :=
  match stage c with
  | awaiting_pull workflowId b _ _ targetPath =>
      let (p', response) := on_state (after_pull workflowId b targetPath) p (response c) in
      ((p', {| route := route c; response := response;
               stage := awaiting_execute workflowId [] JNull |}),
       [execute_request b targetPath])
  | awaiting_execute workflowId _ _ =>
      let (p', response) := on_state (closing workflowId) p (response c) in
      ((p', {| route := route c; response := response; stage := returned |}), [])
  | returned | threw _ => ((p, c), [])
  end.

(** An ['error'] of the request or of the response: the promise is rejected
    and the handler runs its [catch] block. *)
Definition fail (error : Thrown) (p : Process) (c : Connection)
  : (Process * Connection) * list (jsstring * JSON) :=
  match stage c with
  | awaiting_pull workflowId _ _ _ _ | awaiting_execute workflowId _ _ =>
      let (p', response) := on_state (workflow_catch workflowId error) p (response c) in
      ((p', {| route := route c; response := response; stage := returned |}), [])
  | returned | threw _ => ((p, c), [])
  end.

(** A turn of connection [i]. *)
Definition act (i : nat)
  (turn : Process -> Connection -> (Process * Connection) * list (jsstring * JSON))
  (sys : System) : System :=
  match nth_error (connections sys) i with
  | Some c =>
      let '((p, c'), requests) := turn (proc sys) c in
      {| proc := p; connections := replace i c' (connections sys);
         sent := sent sys ++ requests; exited := exited sys |}
  | None => sys
  end.

(** One event.  Once the process has exited nothing happens any more; the
    timer ends the process with the code of the first [setTimeout] armed. *)
Definition step (ev : Event) (sys : System) : System :=
  match exited sys with
  | Some _ => sys
  | None =>
      match ev with
      | arrives r =>
          let '((p, c), requests) := connect r (proc sys) in
          {| proc := p; connections := connections sys ++ [c];
             sent := sent sys ++ requests; exited := None |}
      | data i chunk => act i (receive chunk) sys
      | stream_end i => act i finish sys
      | stream_error i error => act i (fail error) sys
      | timer_fires =>
          match exit_timer (proc sys) with
          | Some code =>
              {| proc := proc sys; connections := connections sys;
                 sent := sent sys; exited := Some code |}
          | None => sys
          end
      end
  end.

Definition run (evs : list Event) (sys : System) : System :=
  fold_left (fun s ev => step ev s) evs sys.

(** The variables of the callback of step 1, in a connection. *)
Definition hold_pull (r : Route) (workflowId : jsstring) (b : Body)
  (v : Relay.Vars (State * JSON)) : Process * Connection :=
  (process (fst (Relay.caller v)),
   {| route := r; response := res (fst (Relay.caller v));
      stage := awaiting_pull workflowId b (Relay.buffer v) (Relay.lastEventData v)
                 (snd (Relay.caller v)) |}).

Definition hold_execute (r : Route) (workflowId : jsstring)
  (v : Relay.Vars (State * unit)) : Process * Connection :=
  (process (fst (Relay.caller v)),
   {| route := r; response := res (fst (Relay.caller v));
      stage := awaiting_execute workflowId (Relay.buffer v) (Relay.lastEventData v) |}).

(** Chunks in a row for one connection. *)
Definition receive_all (cs : list Buffer) (pc : Process * Connection)
  : Process * Connection :=
  fold_left (fun pc chunk => fst (receive chunk (fst pc) (snd pc))) cs pc.

(** The events of a downstream response for connection [i]. *)
Definition events_of (i : nat) (d : Downstream) : list Event :=
  map (data i) (chunks d)
  ++ [match ending d with
      | StreamEnd => stream_end i
      | StreamError e => stream_error i e
      end].

(** A workflow alone in the process, its downstream services answering as the
    host says: the arrival, the response of the pull, and the response of the
    execution when the pull ended. *)
Definition alone (workflowId : jsstring) (b : Body) : list Event :=
  arrives (workflow workflowId (Some b))
  :: events_of 0 (pull_response config b)
  ++ match ending (pull_response config b) with
     | StreamEnd => events_of 0 (execute_response config b)
     | StreamError _ => []
     end.

End Turns.

(** The two frames that open the stream, and the three that announce step 2. *)
Definition opening_frames `{Host} (workflowId : jsstring) (b : Body) : list Written :=
  [Frame (object ["type" ~> str "workflow_started";
                  "workflowId" ~> Some (JString workflowId);
                  "step" ~> num 1;
                  "stepName" ~> str "pull_repository";
                  "prompt" ~> prompt b;
                  "repoUrl" ~> repoUrl b]);
   Frame (object ["type" ~> str "message";
                  "message" ~> Some (JString (lit "Pulling repository: "
                                              ++ ToString (repoUrl b)))])].

Definition announcing_frames `{Host} (workflowId : jsstring) (b : Body)
  (targetPath : JSON) : list Written :=
  [Frame (object ["type" ~> str "workflow_step_complete";
                  "step" ~> num 1;
                  "stepName" ~> str "pull_repository";
                  "targetPath" ~> Some targetPath]);
   Frame (object ["type" ~> str "workflow_started";
                  "workflowId" ~> Some (JString workflowId);
                  "step" ~> num 2;
                  "stepName" ~> str "execute_claude_code";
                  "prompt" ~> prompt b;
                  "workspace" ~> Some targetPath]);
   Frame (object ["type" ~> str "message";
                  "message" ~> Some (JString (lit "Executing Claude Code in workspace: "
                                              ++ ToString (Some targetPath)))])].

(** The workflow a connection waits for a downstream response of. *)
Definition waiting (g : Stage) : option jsstring :=
  match g with
  | awaiting_pull workflowId _ _ _ _ | awaiting_execute workflowId _ _ => Some workflowId
  | returned | threw _ => None
  end.

(** A connection whose request was a workflow with both required fields. *)
Definition accepted (c : Connection) : bool :=
  match route c with
  | workflow _ (Some b) => well_formed b
  | _ => false
  end.

(** A response with more frames written. *)
Definition appended (frames : list Written) (r : Res) : Res :=
  {| statusCode := statusCode r; headers := headers r;
     written := written r ++ frames; ended := ended r |}.

(** A frame, built by the handler, that ends a workflow. *)
Definition terminal (w : Written) : bool :=
  has_type "workflow_complete" w || has_type "workflow_error" w.

(** The response ends with a terminal frame, the only one it carries. *)
Definition closed_by (t : Written) (r : Res) : Prop :=
  exists before,
    written r = before ++ [t] /\ terminal t = true /\ filter terminal before = [].

(** What holds of a connection at every moment, stage by stage. *)
Definition well (c : Connection) : Prop :=
  match stage c with
  | awaiting_pull _ _ _ _ _ | awaiting_execute _ _ _ =>
      accepted c = true
      /\ ended (response c) = false
      /\ filter terminal (written (response c)) = []
  | returned =>
      ended (response c) = true
      /\ if accepted c then exists t, closed_by t (response c)
         else filter terminal (written (response c)) = []
  | threw _ => accepted c = false /\ response c = fresh_res
  end.

(** The exit code and the terminal frame agree: 0 with [workflow_complete],
    1 with [workflow_error]. *)
Definition outcome (code : Z) (t : Written) : Prop :=
  (code = 0%Z /\ has_type "workflow_complete" t = true)
  \/ (code = 1%Z /\ has_type "workflow_error" t = true).



(** What a turn does to the process and to its connection: either the
    workflow goes on, with frames that end nothing, or it finishes, with one
    terminal frame, the end of the response and the exit timer. *)
Inductive turn_kind (p : Process) (c : Connection) (p' : Process) (c' : Connection)
  : Prop :=
| goes_on :
    route c' = route c ->
    statusCode (response c') = statusCode (response c) ->
    ended (response c') = ended (response c) ->
    filter terminal (written (response c')) = filter terminal (written (response c)) ->
    serverStatus p' = serverStatus p ->
    exit_timer p' = exit_timer p ->
    (waiting (stage c) = None -> c' = c) ->
    (waiting (stage c) <> None -> waiting (stage c') <> None) ->
    turn_kind p c p' c'
| finishes code t :
    waiting (stage c) <> None ->
    stage c' = returned ->
    route c' = route c ->
    statusCode (response c') = statusCode (response c) ->
    ended (response c') = true ->
    written (response c') = written (response c) ++ [t] ->
    outcome code t ->
    serverStatus p' = serverStatus p ->
    exit_timer p' = match exit_timer p with Some x => Some x | None => Some code end ->
    turn_kind p c p' c'.


End Live.

Module LiveScenarios.

Import Workflow Live.


(** A second workflow arrives while the first one waits; its pull is refused;
    the timer fires; then the pull of the first one answers and ends. *)
Definition second_is_refused : list Event :=
  [arrives (workflow (lit "job-A") (Some Sample.request));
   arrives (workflow (lit "job-B") (Some Sample.request));
   stream_error 1 (ErrorObject (lit "connect ECONNREFUSED"));
   timer_fires;
   data 0 (bytes "data: true" ++ [Byte.x0a; Byte.x0a]);
   stream_end 0].

(** Two workflows whose chunks alternate, a probe in between, and a request
    with no body. *)
Definition interleaved : list Event :=
  [arrives (workflow (lit "job-A") (Some Sample.request));
   data 0 (bytes "data: tr");
   arrives (workflow (lit "job-B") (Some Sample.request));
   arrives status;
   data 1 (bytes "data: false" ++ [Byte.x0a; Byte.x0a]);
   data 0 (bytes "ue" ++ [Byte.x0a; Byte.x0a]);
   arrives (workflow (lit "job-C") None);
   stream_end 0;
   stream_end 1;
   stream_end 0].

End LiveScenarios.

(* ------------------------------------------------------------------------- *)
(** ** Facts on strings and buffers                                           *)
(* ------------------------------------------------------------------------- *)

Module JSFacts.

(** Induction that follows [split2]: two code units at a time. *)
Lemma pairs_ind (P : list N -> Prop) :
  P [] ->
  (forall c, P [c]) ->
  (forall c d s, P s -> P (d :: s) -> P (c :: d :: s)) ->
  forall s, P s.
Proof.
  intros H0 H1 H2 s.
  assert (both : P s /\ forall c, P (c :: s)).
  { induction s as [|d s [IHs IHc]].
    - split; [exact H0 | exact H1].
    - split; [apply IHc | intro c; apply H2; [exact IHs | apply IHc]]. }
  apply both.
Qed.

Lemma split2_cons2 a b c d s :
  split2 a b (c :: d :: s)
  = if (c =? a) && (d =? b) then [] :: split2 a b s
    else cons_first c (split2 a b (d :: s)).
Proof. reflexivity. Qed.

Lemma cons_first_nonempty c l : cons_first c l <> [].
Proof. destruct l; discriminate. Qed.

Lemma split2_nonempty a b s : split2 a b s <> [].
Proof.
  destruct s as [|c [|d s]]; try discriminate.
  rewrite split2_cons2. destruct ((c =? a) && (d =? b)).
  - discriminate.
  - apply cons_first_nonempty.
Qed.

Lemma pop_spec {A} (l : list A) (d : A) :
  l <> [] -> pop l = (Some (last l d), removelast l).
Proof.
  induction l as [|x l IH]; intro Hne; [congruence|].
  destruct l as [|y l]; [reflexivity|].
  change (pop (x :: y :: l)) with (let (r, rest) := pop (y :: l) in (r, x :: rest)).
  rewrite IH by discriminate. reflexivity.
Qed.

Lemma join_cons_first c l :
  l <> [] -> join_nn (cons_first c l) = c :: join_nn l.
Proof. destruct l as [|p [|q l]]; intro Hne; [congruence| |]; reflexivity. Qed.

(** Joining the pieces gives the text back. *)
Lemma join_split s : join_nn (split_nn s) = s.
Proof.
  unfold split_nn. induction s as [| c | c d s IHs IHd] using pairs_ind;
    try reflexivity.
  rewrite split2_cons2.
  destruct ((c =? LF) && (d =? LF)) eqn:E.
  - apply andb_true_iff in E as [Ec Ed].
    apply N.eqb_eq in Ec, Ed. subst.
    pose proof (split2_nonempty LF LF s) as Hne.
    destruct (split2 LF LF s) as [|p ps] eqn:Es; [congruence|].
    change (join_nn ([] :: p :: ps)) with (LF :: LF :: join_nn (p :: ps)).
    rewrite IHs. reflexivity.
  - rewrite join_cons_first by apply split2_nonempty.
    rewrite IHd. reflexivity.
Qed.

(** A text in one piece is that piece. *)
Lemma split_single s x : split_nn s = [x] -> x = s.
Proof. intro E. rewrite <- (join_split s), E. reflexivity. Qed.

Lemma removelast_cons_first c l :
  removelast l <> [] -> removelast (cons_first c l) = cons_first c (removelast l).
Proof.
  destruct l as [|p [|q l]]; cbn; try congruence. reflexivity.
Qed.

Lemma last_cons_first c (l : list jsstring) :
  removelast l <> [] -> last (cons_first c l) [] = last l [].
Proof.
  destruct l as [|p [|q' l]]; cbn; try congruence; reflexivity.
Qed.

Lemma cons_first_app c l l' :
  l <> [] -> cons_first c (l ++ l') = cons_first c l ++ l'.
Proof. destruct l; [congruence | reflexivity]. Qed.

(** Splitting a text that goes on: the pieces closed so far stay, and the
    open piece is split with what follows. *)
Lemma split_app s t :
  split_nn (s ++ t)
  = removelast (split_nn s) ++ split_nn (last (split_nn s) [] ++ t).
Proof.
  unfold split_nn. revert t.
  induction s as [| c | c d s IHs IHd] using pairs_ind; intro t;
    try reflexivity.
  change ((c :: d :: s) ++ t) with (c :: d :: (s ++ t)).
  rewrite !split2_cons2.
  destruct ((c =? LF) && (d =? LF)) eqn:E.
  - rewrite IHs.
    pose proof (split2_nonempty LF LF s) as Hne.
    destruct (split2 LF LF s) as [|p ps] eqn:Es; [congruence|].
    reflexivity.
  - change (d :: (s ++ t)) with ((d :: s) ++ t). rewrite IHd.
    pose proof (split2_nonempty LF LF (d :: s)) as Hne.
    destruct (removelast (split2 LF LF (d :: s))) as [|p ps] eqn:Er.
    + destruct (split2 LF LF (d :: s)) as [|x [|y l]] eqn:Es; [congruence| |].
      * apply split_single in Es. subst x. cbn [cons_first removelast last app].
        change ((c :: d :: s) ++ t) with (c :: d :: (s ++ t)).
        rewrite split2_cons2, E. reflexivity.
      * cbn in Er. destruct l; discriminate.
    + rewrite removelast_cons_first by (rewrite Er; discriminate).
      rewrite last_cons_first by (rewrite Er; discriminate).
      rewrite Er. rewrite cons_first_app by discriminate. reflexivity.
Qed.

Lemma last_append {A} (l l' : list A) (d : A) :
  l' <> [] -> last (l ++ l') d = last l' d.
Proof.
  intro Hne. induction l as [|x l IH]; [reflexivity|].
  cbn [app]. destruct (l ++ l') eqn:E.
  - apply app_eq_nil in E as [_ E]. congruence.
  - rewrite <- IH. reflexivity.
Qed.

Lemma last_cons {A} (l : list A) (x d : A) : last (x :: l) d = last l x.
Proof.
  revert x d. induction l as [|y l IH]; intros x d; [reflexivity|].
  change (last (x :: y :: l) d) with (last (y :: l) d).
  rewrite (IH y d), (IH y x). reflexivity.
Qed.

Lemma removelast_split_app s t :
  removelast (split_nn (s ++ t))
  = removelast (split_nn s) ++ removelast (split_nn (last (split_nn s) [] ++ t)).
Proof.
  rewrite split_app. apply removelast_app. apply split2_nonempty.
Qed.

Lemma last_split_app s t :
  last (split_nn (s ++ t)) [] = last (split_nn (last (split_nn s) [] ++ t)) [].
Proof.
  rewrite split_app. apply last_append. apply split2_nonempty.
Qed.

End JSFacts.

(* ------------------------------------------------------------------------- *)
(** ** Facts on the relay                                                     *)
(* ------------------------------------------------------------------------- *)

Module RelayFacts.

Import JSFacts RelaySpec.

Section Facts.

Context `{Host}.
Variable St : Type.
Variable onData : jsstring -> St -> St * option Thrown.

Abbreviation on_message := (Relay.on_message St onData).
Abbreviation for_messages := (Relay.for_messages St onData).
Abbreviation on_text := (Relay.on_text St onData).
Abbreviation on_data := (Relay.on_data St onData).
Abbreviation respond := (Relay.respond St onData).
Abbreviation deliver := (deliver St onData).

Lemma for_messages_app l l' v :
  for_messages (l ++ l') v = for_messages l' (for_messages l v).
Proof. apply fold_left_app. Qed.

(** The loop over the frames, told by their records. *)
Lemma for_messages_records lines data st :
  for_messages lines (data, st)
  = (last (map snd (records lines)) data, deliver (records lines) st).
Proof.
  revert data st. induction lines as [|m lines IH]; intros data st.
  - reflexivity.
  - change (for_messages (m :: lines) (data, st))
      with (for_messages lines (on_message (data, st) m)).
    unfold Relay.on_message. cbn [records]. unfold record_of, substring_from.
    destruct (startsWith m (lit "data: ")).
    + destruct (JSON_parse (skipn 6 m)) as [r|].
      * rewrite IH. cbn [map snd fst deliver fold_left].
        f_equal. symmetry. apply last_cons.
      * apply IH.
    + apply IH.
Qed.

(** The listener in the words of the specification. *)
Lemma on_text_spec text v :
  on_text text v
  = let appended := Relay.buffer v ++ text in
    let rs := records (complete_frames appended) in
    {| Relay.buffer := retained appended;
       Relay.lastEventData := last (map snd rs) (Relay.lastEventData v);
       Relay.caller := deliver rs (Relay.caller v) |}.
Proof.
  unfold Relay.on_text.
  rewrite (pop_spec (split_nn (Relay.buffer v ++ text)) [])
    by apply split2_nonempty.
  rewrite for_messages_records. cbv zeta. f_equal.
  unfold retained. destruct (last (split_nn (Relay.buffer v ++ text)) []); reflexivity.
Qed.

Lemma records_app l l' : records (l ++ l') = records l ++ records l'.
Proof.
  induction l as [|f l IH]; [reflexivity|].
  cbn [app records]. destruct (record_of f); [cbn [app]; f_equal|]; exact IH.
Qed.

Lemma deliver_cons r rs st :
  deliver (r :: rs) st = deliver rs (fst (onData (fst r) st)).
Proof. reflexivity. Qed.

Lemma deliver_app rs rs' st : deliver (rs ++ rs') st = deliver rs' (deliver rs st).
Proof. apply fold_left_app. Qed.

Lemma last_map_app {A} (l l' : list A) d :
  last (l ++ l') d = last l' (last l d).
Proof.
  destruct l' as [|y l'].
  - rewrite app_nil_r. reflexivity.
  - rewrite last_append by discriminate. rewrite !last_cons. reflexivity.
Qed.

(** Two texts in a row are handled as their concatenation. *)
Lemma on_text_app s t st :
  on_text t (on_text s (Relay.initial st)) = on_text (s ++ t) (Relay.initial st).
Proof.
  rewrite !on_text_spec. cbv zeta. cbn [Relay.buffer Relay.lastEventData Relay.caller Relay.initial app].
  unfold retained, complete_frames.
  rewrite (last_split_app s t), (removelast_split_app s t).
  rewrite records_app, deliver_app, map_app, last_map_app. reflexivity.
Qed.

Lemma on_text_nil st : on_text [] (Relay.initial st) = Relay.initial st.
Proof. reflexivity. Qed.

(** However the text is cut, the listener ends where the whole text
    brings it. *)
Lemma on_text_chunks texts st :
  fold_left (fun v t => on_text t v) texts (Relay.initial st)
  = on_text (List.concat texts) (Relay.initial st).
Proof.
  rewrite <- (on_text_nil st) at 1.
  change (List.concat texts) with ([] ++ List.concat texts).
  generalize (@nil N) as s. 
  induction texts as [|t texts IH]; intro s.
  - cbn [fold_left List.concat]. rewrite app_nil_r. reflexivity.
  - cbn [fold_left List.concat]. rewrite on_text_app, IH, app_assoc. reflexivity.
Qed.

Lemma on_data_texts cs v :
  fold_left on_data cs v = fold_left (fun v t => on_text t v) (map toString cs) v.
Proof.
  revert v. induction cs as [|c cs IH]; intro v; [reflexivity|].
  cbn [fold_left map]. apply IH.
Qed.

(** The relay in the words of the specification: the caller receives the
    records of the complete frames of the response, and the promise settles
    with the last of them. *)
Lemma respond_spec d st :
  respond d st
  = (deliver (records (stream_frames d)) st,
     Relay.settle (ending d) (last (map snd (records (stream_frames d))) JNull)).
Proof.
  unfold Relay.respond. rewrite on_data_texts, on_text_chunks, on_text_spec.
  reflexivity.
Qed.

End Facts.

End RelayFacts.

(* ------------------------------------------------------------------------- *)
(** ** More facts on splitting, frames and records                             *)
(* ------------------------------------------------------------------------- *)

Module RelayExtras.

Import JSFacts RelaySpec RelayFacts Framing.

Lemma contains_nn_cons2 c d s :
  contains_nn (c :: d :: s) = ((c =? LF) && (d =? LF)) || contains_nn (d :: s).
Proof. reflexivity. Qed.

Lemma contains_nn_tail c s : contains_nn (c :: s) = false -> contains_nn s = false.
Proof.
  destruct s as [|d s]; [reflexivity|]. rewrite contains_nn_cons2.
  intro E. apply orb_false_iff in E. apply E.
Qed.

Lemma contains_nn_skipn n s : contains_nn s = false -> contains_nn (skipn n s) = false.
Proof.
  revert s. induction n as [|n IH]; intros s E; [exact E|].
  destruct s as [|c s]; [reflexivity|]. cbn [skipn]. apply IH.
  apply (contains_nn_tail c). exact E.
Qed.

Lemma last_skipn (n : nat) (s : jsstring) :
  last s 0 <> LF -> last (skipn n s) 0 <> LF.
Proof.
  revert s. induction n as [|n IH]; intros s E; [exact E|].
  destruct s as [|c s]; [exact E|]. cbn [skipn]. apply IH.
  destruct s as [|d s]; [discriminate | exact E].
Qed.

(** A text without the delimiter is one piece. *)
Lemma split_whole u : contains_nn u = false -> split_nn u = [u].
Proof.
  unfold split_nn. induction u as [| c | c d s IHs IHd] using pairs_ind; intro E;
    try reflexivity.
  rewrite contains_nn_cons2 in E. apply orb_false_iff in E as [E Ed].
  rewrite split2_cons2, E, (IHd Ed). reflexivity.
Qed.

(** A piece closed by the delimiter comes out first. *)
Lemma split_frame p rest :
  contains_nn p = false -> last p 0 <> LF ->
  split_nn (p ++ LF :: LF :: rest) = p :: split_nn rest.
Proof.
  unfold split_nn. induction p as [| c | c d s IHs IHd] using pairs_ind; intros E Hl.
  - reflexivity.
  - cbn [app]. rewrite split2_cons2.
    assert (Hc : (c =? LF) = false) by (apply N.eqb_neq; exact Hl).
    rewrite Hc. cbn [andb]. rewrite split2_cons2. reflexivity.
  - rewrite contains_nn_cons2 in E. apply orb_false_iff in E as [E Ed].
    change ((c :: d :: s) ++ LF :: LF :: rest) with (c :: d :: (s ++ LF :: LF :: rest)).
    rewrite split2_cons2, E.
    change (d :: (s ++ LF :: LF :: rest)) with ((d :: s) ++ LF :: LF :: rest).
    rewrite (IHd Ed Hl). reflexivity.
Qed.

Lemma first_piece_empty d s ps : split_nn (d :: s) = [] :: ps -> d = LF.
Proof.
  unfold split_nn. destruct s as [|e s]; [discriminate|].
  rewrite split2_cons2. destruct ((d =? LF) && (e =? LF)) eqn:E.
  - intros _. apply andb_true_iff in E as [E _]. apply N.eqb_eq. exact E.
  - destruct (split2 LF LF (e :: s)); discriminate.
Qed.

(** No piece closed by the delimiter ends with a newline. *)
Lemma closed_pieces_end s :
  Forall (fun p => last p 0 <> LF) (removelast (split_nn s)).
Proof.
  induction s as [| c | c d s IHs IHd] using pairs_ind; try (constructor; fail).
  unfold split_nn in *. rewrite split2_cons2.
  destruct ((c =? LF) && (d =? LF)) eqn:E.
  - pose proof (split2_nonempty LF LF s) as Hne.
    destruct (split2 LF LF s) as [|x l] eqn:Es; [congruence|].
    change (removelast ([] :: x :: l)) with ([] :: removelast (x :: l)).
    constructor; [discriminate | exact IHs].
  - pose proof (split2_nonempty LF LF (d :: s)) as Hne.
    destruct (split2 LF LF (d :: s)) as [|x [|y l]] eqn:Es; [congruence| |].
    + constructor.
    + change (removelast (cons_first c (x :: y :: l)))
        with ((c :: x) :: removelast (y :: l)).
      change (removelast (x :: y :: l)) with (x :: removelast (y :: l)) in IHd.
      inversion IHd as [|? ? Hx Hrest]; subst. constructor; [|exact Hrest].
      destruct x as [|z x]; [|exact Hx].
      apply first_piece_empty in Es. subst d.
      rewrite N.eqb_refl, andb_true_r in E. apply N.eqb_neq. exact E.
Qed.

Lemma Forall_removelast {A} (P : A -> Prop) (l : list A) :
  Forall P l -> Forall P (removelast l).
Proof.
  induction 1 as [|x l Hx Hl IH]; [constructor|].
  destruct l as [|y l]; [constructor|].
  change (removelast (x :: y :: l)) with (x :: removelast (y :: l)).
  constructor; assumption.
Qed.

Lemma contains_nn_marker data :
  contains_nn (lit "data: " ++ data) = contains_nn data.
Proof. destruct data as [|c data]; reflexivity. Qed.

Lemma last_marker data :
  last data 0 <> LF -> last (lit "data: " ++ data) 0 <> LF.
Proof.
  destruct data as [|c data]; [discriminate|].
  change (lit "data: " ++ c :: data) with (100 :: 97 :: 116 :: 97 :: 58 :: 32 :: c :: data).
  rewrite !last_cons. rewrite <- (last_cons data c 0). trivial.
Qed.

Lemma frameable_spec data :
  frameable data = true <-> contains_nn data = false /\ last data 0 <> LF.
Proof.
  unfold frameable. rewrite andb_true_iff, !negb_true_iff, N.eqb_neq. tauto.
Qed.

(** The pieces of a text made of frames. *)
Lemma split_framed texts :
  Forall (fun t => frameable t = true) texts ->
  split_nn (framed texts) = map (app (lit "data: ")) texts ++ [[]].
Proof.
  induction 1 as [|t texts Ht Hts IH]; [reflexivity|].
  apply frameable_spec in Ht as [Hc Hl].
  unfold framed in *. cbn [map List.concat]. unfold frame_text at 1.
  rewrite <- !app_assoc. rewrite (app_assoc (lit "data: ") t).
  change ([LF; LF] ++ List.concat (map frame_text texts))
    with (LF :: LF :: List.concat (map frame_text texts)).
  rewrite split_frame;
    [ rewrite IH; reflexivity
    | rewrite contains_nn_marker; exact Hc
    | apply last_marker; exact Hl ].
Qed.

Lemma startsWith_app p s : startsWith (p ++ s) p = true.
Proof.
  induction p as [|c p IH]; [destruct s; reflexivity|].
  cbn [app startsWith]. rewrite N.eqb_refl, IH. reflexivity.
Qed.

Section Extras.

Context `{Host}.

Lemma record_of_marker data :
  record_of (lit "data: " ++ data)
  = match JSON_parse data with
    | Some v => Some (data, v)
    | None => None
    end.
Proof.
  unfold record_of.
  assert (E1 : startsWith (lit "data: " ++ data) (lit "data: ") = true)
    by apply startsWith_app.
  assert (E2 : skipn 6 (lit "data: " ++ data) = data) by reflexivity.
  rewrite E1, E2. reflexivity.
Qed.

(** A record carries a text that parses to its value, taken from a frame. *)
Lemma records_sound frames :
  Forall (fun r => JSON_parse (fst r) = Some (snd r)
                   /\ exists f, In f frames /\ fst r = skipn 6 f)
    (records frames).
Proof.
  induction frames as [|f frames IH]; [constructor|].
  assert (IH' : Forall (fun r => JSON_parse (fst r) = Some (snd r)
                                 /\ exists f', In f' (f :: frames) /\ fst r = skipn 6 f')
                  (records frames)).
  { eapply Forall_impl; [|exact IH]. intros r [Hp [f' [Hin Hf]]].
    split; [exact Hp|]. exists f'. split; [right; exact Hin | exact Hf]. }
  cbn [records]. unfold record_of.
  destruct (startsWith f (lit "data: ")); [|exact IH'].
  destruct (JSON_parse (skipn 6 f)) as [v|] eqn:Ep; [|exact IH'].
  constructor; [|exact IH'].
  split; [exact Ep|]. exists f. split; [left|]; reflexivity.
Qed.

(** The records of the frames of texts that parse are the texts back. *)
Lemma records_of_records rs :
  Forall (fun r => JSON_parse (fst r) = Some (snd r)) rs ->
  records (map (app (lit "data: ")) (map fst rs)) = rs.
Proof.
  induction 1 as [|[y v] rs Hr Hrs IH]; [reflexivity|].
  cbn [map records fst]. rewrite record_of_marker. cbn [fst snd] in Hr.
  rewrite Hr, IH. reflexivity.
Qed.

Lemma observed_calls rs calls :
  deliver (list jsstring) Relay.record_call rs calls = calls ++ map fst rs.
Proof.
  revert calls. induction rs as [|r rs IH]; intro calls.
  - cbn. rewrite app_nil_r. reflexivity.
  - rewrite deliver_cons. cbn [Relay.record_call fst map].
    rewrite IH, <- app_assoc. reflexivity.
Qed.

Lemma observe_spec d :
  Relay.observe d
  = (map fst (records (stream_frames d)),
     Relay.settle (ending d) (last (map snd (records (stream_frames d))) JNull)).
Proof.
  unfold Relay.observe. rewrite respond_spec, observed_calls. reflexivity.
Qed.

End Extras.

End RelayExtras.

(* ------------------------------------------------------------------------- *)
(** ** The relay: chunk boundaries, malformed frames, the result value        *)
(* ------------------------------------------------------------------------- *)

Module RelayTheorems.

Import JSFacts RelaySpec RelayFacts.
Import RelayExtras (startsWith_app).

(** The first piece of a text that starts with [d] is empty or starts with [d]. *)
Lemma split_first d s :
  (exists ps, split_nn (d :: s) = [] :: ps)
  \/ (exists p ps, split_nn (d :: s) = (d :: p) :: ps).
Proof.
  unfold split_nn. destruct s as [|e s].
  - right. exists [], []. reflexivity.
  - rewrite split2_cons2. destruct ((d =? LF) && (e =? LF)).
    + left. eexists. reflexivity.
    + right. pose proof (split2_nonempty LF LF (e :: s)) as Hne.
      destruct (split2 LF LF (e :: s)) as [|p ps]; [congruence|].
      exists p, ps. reflexivity.
Qed.

(** No piece of a split holds the delimiter. *)
Lemma split_pieces_clean s :
  Forall (fun p => contains_nn p = false) (split_nn s).
Proof.
  induction s as [| c | c d s IHs IHd] using pairs_ind.
  - repeat constructor.
  - repeat constructor.
  - unfold split_nn in *. rewrite split2_cons2.
    destruct ((c =? LF) && (d =? LF)) eqn:E.
    + constructor; [reflexivity | exact IHs].
    + destruct (split_first d s) as [[ps Es] | [p [ps Es]]];
        unfold split_nn in Es; rewrite Es in *; cbn [cons_first];
        inversion IHd as [|? ? Hp Hps]; subst; constructor; trivial.
      change (contains_nn (c :: d :: p))
        with (((c =? LF) && (d =? LF)) || contains_nn (d :: p)).
      rewrite E, Hp. reflexivity.
Qed.

Lemma toString_ascii chunk :
  is_ascii chunk = true -> toString chunk = map Byte.to_N chunk.
Proof.
  unfold toString, is_ascii. induction chunk as [|b chunk IH]; intro Ha.
  - reflexivity.
  - cbn [forallb] in Ha. apply andb_true_iff in Ha as [Hb Ha].
    cbn [map utf8_decode]. unfold utf8_step, utf8_lead. rewrite Hb.
    cbn [app flat_map]. rewrite (IH Ha).
    unfold utf16. apply N.leb_le in Hb.
    destruct (N.ltb_spec (Byte.to_N b) 0x10000); [reflexivity | lia].
Qed.

Lemma stream_text_ascii cs e :
  forallb is_ascii cs = true ->
  stream_text {| chunks := cs; ending := e |}
  = stream_text {| chunks := [List.concat cs]; ending := e |}.
Proof.
  unfold stream_text. cbn [chunks map List.concat]. rewrite app_nil_r.
  induction cs as [|c cs IH]; intro Ha; [reflexivity|].
  cbn [forallb] in Ha. apply andb_true_iff in Ha as [Hc Ha].
  cbn [map List.concat]. rewrite (IH Ha).
  assert (Hall : is_ascii (List.concat cs) = true).
  { clear IH Hc. induction cs as [|x cs IHc]; [reflexivity|].
    cbn [forallb] in Ha. apply andb_true_iff in Ha as [Hx Ha].
    cbn [List.concat]. unfold is_ascii in *. rewrite forallb_app, Hx.
    apply (IHc Ha). }
  assert (Hcat : is_ascii (c ++ List.concat cs) = true).
  { unfold is_ascii in *. rewrite forallb_app, Hc, Hall. reflexivity. }
  rewrite (toString_ascii _ Hc), (toString_ascii _ Hall), (toString_ascii _ Hcat).
  symmetry. apply map_app.
Qed.

Lemma startsWith_eq s p :
  startsWith s p = true -> s = p ++ skipn (List.length p) s.
Proof.
  revert s. induction p as [|c p IH]; intros s E; [reflexivity|].
  destruct s as [|d s]; [discriminate E|].
  cbn [startsWith] in E. apply andb_true_iff in E as [Ec Es].
  apply N.eqb_eq in Ec. subst d. cbn [List.length skipn app]. f_equal.
  apply IH. exact Es.
Qed.

Lemma join_as_concat frames rest :
  join_nn (frames ++ [rest])
  = List.concat (map (fun f => f ++ [LF; LF]) frames) ++ rest.
Proof.
  induction frames as [|f frames IH]; [reflexivity|].
  cbn [app map List.concat]. rewrite <- !app_assoc, <- IH.
  destruct (frames ++ [rest]) eqn:E; [destruct frames; discriminate E|].
  reflexivity.
Qed.

(** What [split] and [pop] leave is a cut of the text. *)
Lemma cuts_of_split text : cuts text (complete_frames text) (retained text).
Proof.
  unfold cuts, complete_frames, retained.
  assert (Hp : removelast (split_nn text) ++ [last (split_nn text) []] = split_nn text).
  { symmetry. apply app_removelast_last. apply split2_nonempty. }
  rewrite <- join_as_concat, Hp. split; [apply join_split|].
  split; [apply split_pieces_clean | apply RelayExtras.closed_pieces_end].
Qed.

(** A text has one cut only. *)
Lemma cuts_unique text frames rest :
  cuts text frames rest -> frames = complete_frames text /\ rest = retained text.
Proof.
  intros [Ht [Hc He]]. unfold complete_frames, retained.
  assert (Hs : split_nn text = frames ++ [rest]).
  { subst text. induction frames as [|f frames IH].
    - cbn. apply RelayExtras.split_whole. inversion Hc; assumption.
    - cbn [map List.concat app]. rewrite <- !app_assoc.
      change ([LF; LF] ++ List.concat (map (fun f => f ++ [LF; LF]) frames) ++ rest)
        with (LF :: LF :: List.concat (map (fun f => f ++ [LF; LF]) frames) ++ rest).
      inversion Hc; subst. inversion He; subst.
      rewrite RelayExtras.split_frame by assumption.
      f_equal. apply IH; assumption. }
  rewrite Hs. split; [symmetry; apply removelast_last | symmetry; apply last_last].
Qed.

Section Relay.

Context `{Host}.
Variable St : Type.
Variable onData : jsstring -> St -> St * option Thrown.

(** The relay depends on the decoded text of the response only, not on how
    the text came cut in chunks. *)
Lemma respond_text d d' st :
  stream_text d = stream_text d' -> ending d = ending d' ->
  Relay.respond St onData d st = Relay.respond St onData d' st.
Proof.
  intros Ht He. rewrite !respond_spec. unfold stream_frames.
  rewrite Ht, He. reflexivity.
Qed.

(** X1. On a response of ASCII bytes the chunk boundaries do not matter: the
    chunks and their concatenation in one chunk give the same calls of the
    callback and the same settlement. *)
Lemma respond_ascii_chunks cs e st :
  forallb is_ascii cs = true ->
  Relay.respond St onData {| chunks := cs; ending := e |} st
  = Relay.respond St onData {| chunks := [List.concat cs]; ending := e |} st.
Proof.
  intro Ha. apply respond_text; [apply stream_text_ascii; exact Ha | reflexivity].
Qed.

(** The loop over the frames does to the last record and to the caller what
    section 4.3 says of the frames. *)
Lemma for_messages_handled frames v :
  handled St onData frames v (Relay.for_messages St onData frames v).
Proof.
  revert v. induction frames as [|f frames IH]; intro v; [constructor|].
  change (Relay.for_messages St onData (f :: frames) v)
    with (Relay.for_messages St onData frames (Relay.on_message St onData v f)).
  unfold Relay.on_message, substring_from.
  destruct (startsWith f (lit "data: ")) eqn:Em.
  - apply startsWith_eq in Em. change (List.length (lit "data: ")) with 6%nat in Em.
    destruct (JSON_parse (skipn 6 f)) as [data|] eqn:Ep.
    + rewrite Em at 1. destruct v as [last st].
      eapply handled_record; [exact Ep | apply IH].
    + rewrite Em at 1. eapply handled_malformed; [exact Ep | apply IH].
  - apply handled_unmarked; [|apply IH].
    intros body E. rewrite E, startsWith_app in Em. discriminate Em.
Qed.

(** What section 4.3 says of the frames fixes the outcome. *)
Lemma handled_unique frames v out :
  handled St onData frames v out -> out = Relay.for_messages St onData frames v.
Proof.
  induction 1 as [v | body data frames last st out Hp _ IH
                  | body frames v out Hp _ IH | frame frames v out Hu _ IH].
  - reflexivity.
  - rewrite IH.
    change (Relay.for_messages St onData ((lit "data: " ++ body) :: frames) (last, st))
      with (Relay.for_messages St onData frames
              (Relay.on_message St onData (last, st) (lit "data: " ++ body))).
    unfold Relay.on_message, substring_from. rewrite startsWith_app.
    change (skipn 6 (lit "data: " ++ body)) with body. rewrite Hp. reflexivity.
  - rewrite IH.
    change (Relay.for_messages St onData ((lit "data: " ++ body) :: frames) v)
      with (Relay.for_messages St onData frames
              (Relay.on_message St onData v (lit "data: " ++ body))).
    unfold Relay.on_message, substring_from. rewrite startsWith_app.
    change (skipn 6 (lit "data: " ++ body)) with body. rewrite Hp. reflexivity.
  - rewrite IH.
    change (Relay.for_messages St onData (frame :: frames) v)
      with (Relay.for_messages St onData frames (Relay.on_message St onData v frame)).
    unfold Relay.on_message.
    destruct (startsWith frame (lit "data: ")) eqn:Em; [|reflexivity].
    apply startsWith_eq in Em. exfalso. exact (Hu _ Em).
Qed.

(** The listener, with the loop left as it is. *)
Lemma on_text_loop text v :
  Relay.on_text St onData text v
  = {| Relay.buffer := retained (Relay.buffer v ++ text);
       Relay.lastEventData :=
         fst (Relay.for_messages St onData (complete_frames (Relay.buffer v ++ text))
                (Relay.lastEventData v, Relay.caller v));
       Relay.caller :=
         snd (Relay.for_messages St onData (complete_frames (Relay.buffer v ++ text))
                (Relay.lastEventData v, Relay.caller v)) |}.
Proof.
  unfold Relay.on_text.
  rewrite (pop_spec (split_nn (Relay.buffer v ++ text)) []) by apply split2_nonempty.
  unfold complete_frames, retained.
  destruct (Relay.for_messages St onData (removelast (split_nn (Relay.buffer v ++ text)))
              (Relay.lastEventData v, Relay.caller v)) as [data st].
  cbn [fst snd]. f_equal.
  destruct (last (split_nn (Relay.buffer v ++ text)) []); reflexivity.
Qed.

(** C5. On each chunk the listener of [streamSSE] does what the algorithm of
    section 4.3 says.  The chunk is appended to the buffer (an ASCII chunk
    byte for code unit); the buffer with the chunk is cut at the double
    newline into complete frames and a rest: the frames, each followed by the
    delimiter, and then the rest make up the text, none of them holds the
    delimiter and a frame ends at the first delimiter; the rest is what the
    buffer keeps for the next chunk; and the complete frames, in order, are
    handled as the algorithm says: a frame that begins with [data: ] has the
    marker stripped and the remainder parsed and handed to the caller, a
    remainder that does not parse and a frame without the marker change
    nothing. *)
Theorem on_data_follows_the_algorithm v chunk :
  exists frames,
    cuts (Relay.buffer v ++ toString chunk) frames
      (Relay.buffer (Relay.on_data St onData v chunk))
    /\ handled St onData frames
         (Relay.lastEventData v, Relay.caller v)
         (Relay.lastEventData (Relay.on_data St onData v chunk),
          Relay.caller (Relay.on_data St onData v chunk))
    /\ (is_ascii chunk = true -> toString chunk = map Byte.to_N chunk).
Proof.
  exists (complete_frames (Relay.buffer v ++ toString chunk)).
  unfold Relay.on_data. rewrite on_text_loop. cbn [Relay.buffer Relay.lastEventData Relay.caller].
  split; [apply cuts_of_split|]. split; [|apply toString_ascii].
  rewrite <- surjective_pairing. apply for_messages_handled.
Qed.

(** C6. When the response ends, [streamSSE] resolves with the last record
    that was parsed from a [data: ] frame of the stream ([null] when there was
    none). *)
Theorem streamSSE_resolves_with_last_record url data st :
  ending (http_post url data) = StreamEnd ->
  snd (Relay.streamSSE St onData url data st)
  = Relay.Resolved
      (last (map snd (records (stream_frames (http_post url data)))) JNull).
Proof.
  intro He. unfold Relay.streamSSE. rewrite respond_spec, He. reflexivity.
Qed.

Lemma record_of_malformed bad :
  startsWith bad (lit "data: ") = true ->
  JSON_parse (substring_from 6 bad) = None ->
  record_of bad = None.
Proof.
  intros Hm Hp. unfold record_of. unfold substring_from in Hp.
  rewrite Hm, Hp. reflexivity.
Qed.

(** C4 (amended). A complete frame that carries the marker and whose body
    does not parse is dropped: the relay ends as the loop over the other
    frames alone leaves it, so nothing is handed to the caller for that frame,
    nothing is thrown, the caller's state (its console with it) is as if the
    frame had not come, and the frames after it are processed. *)
Theorem malformed_frame_is_dropped d st pre bad post :
  stream_frames d = pre ++ bad :: post ->
  startsWith bad (lit "data: ") = true ->
  JSON_parse (substring_from 6 bad) = None ->
  Relay.respond St onData d st
  = (snd (Relay.for_messages St onData (pre ++ post) (JNull, st)),
     Relay.settle (ending d)
       (fst (Relay.for_messages St onData (pre ++ post) (JNull, st)))).
Proof.
  intros Hf Hm Hp. rewrite respond_spec, Hf, for_messages_records.
  rewrite !records_app. cbn [records].
  rewrite (record_of_malformed bad Hm Hp). reflexivity.
Qed.

End Relay.

Lemma on_data_follows_the_algorithm_witness :
  is_ascii (bytes "ue" ++ [Byte.x0a; Byte.x0a] ++ bytes "da") = true
  /\ toString (bytes "ue" ++ [Byte.x0a; Byte.x0a] ++ bytes "da")
     = lit "ue" ++ [LF; LF] ++ lit "da"
  /\ @Relay.on_data (Sample.host Sample.silent) _ Relay.record_call
       {| Relay.buffer := lit "data: tr"; Relay.lastEventData := JNull; Relay.caller := [] |}
       (bytes "ue" ++ [Byte.x0a; Byte.x0a] ++ bytes "da")
     = {| Relay.buffer := lit "da"; Relay.lastEventData := JBool true;
          Relay.caller := [lit "true"] |}.
Proof.
  split; [reflexivity|].
  destruct (@on_data_follows_the_algorithm (Sample.host Sample.silent) _ Relay.record_call
              {| Relay.buffer := lit "data: tr"; Relay.lastEventData := JNull;
                 Relay.caller := [] |}
              (bytes "ue" ++ [Byte.x0a; Byte.x0a] ++ bytes "da")) as [frames [_ [_ Ha]]].
  split; [rewrite (Ha eq_refl); reflexivity | reflexivity].
Defined.

Lemma malformed_frame_is_dropped_witness :
  stream_frames Sample.broken_then_true
    = [] ++ lit "data: {oops" :: [lit "data: true"]
  /\ startsWith (lit "data: {oops") (lit "data: ") = true
  /\ @JSON_parse (Sample.host Sample.silent) (substring_from 6 (lit "data: {oops")) = None
  /\ @Relay.observe (Sample.host Sample.silent) Sample.broken_then_true
     = ([lit "true"], Relay.Resolved (JBool true)).
Proof.
  split; [reflexivity|]. split; [reflexivity|]. split; [reflexivity|].
  unfold Relay.observe.
  rewrite (@malformed_frame_is_dropped (Sample.host Sample.silent) _ Relay.record_call
             Sample.broken_then_true [] [] (lit "data: {oops") [lit "data: true"]);
    reflexivity.
Defined.

Lemma streamSSE_resolves_with_last_record_witness :
  ending (@http_post (Sample.answering Sample.two_frames) [] JNull) = StreamEnd
  /\ snd (@Relay.streamSSE (Sample.answering Sample.two_frames) _
            Relay.record_call [] JNull [])
     = Relay.Resolved (JBool false).
Proof.
  split; [reflexivity|].
  rewrite (@streamSSE_resolves_with_last_record (Sample.answering Sample.two_frames)
             _ Relay.record_call [] JNull [] eq_refl).
  reflexivity.
Defined.

(** C1 (at the failing input). The frame [data: "é"] in one chunk is handed
    to the caller as ["é"]; the same bytes in two chunks, cut between the two
    bytes of é, are decoded chunk by chunk, each half becomes U+FFFD, and the
    caller is handed another text, or none: the frames the relay yields depend
    on where the chunk boundary falls. *)
Theorem chunk_boundary_inside_a_character `{Host} v :
  JSON_parse Sample.e_acute_json = Some v ->
  Relay.observe (Sample.ends_after [Sample.e_acute_head ++ Sample.e_acute_tail])
    = ([Sample.e_acute_json], Relay.Resolved v)
  /\ fst (Relay.observe (Sample.ends_after [Sample.e_acute_head; Sample.e_acute_tail]))
     = match JSON_parse Sample.replaced_json with
       | Some _ => [Sample.replaced_json]
       | None => []
       end
  /\ fst (Relay.observe (Sample.ends_after [Sample.e_acute_head; Sample.e_acute_tail]))
     <> fst (Relay.observe (Sample.ends_after [Sample.e_acute_head ++ Sample.e_acute_tail])).
Proof.
  intro Hv. unfold Relay.observe. rewrite !respond_spec.
  assert (Fw : stream_frames (Sample.ends_after [Sample.e_acute_head ++ Sample.e_acute_tail])
               = [lit "data: " ++ Sample.e_acute_json]) by reflexivity.
  assert (Fs : stream_frames (Sample.ends_after [Sample.e_acute_head; Sample.e_acute_tail])
               = [lit "data: " ++ Sample.replaced_json]) by reflexivity.
  rewrite Fw, Fs. cbn [records fst].
  assert (Rw : record_of (lit "data: " ++ Sample.e_acute_json)
               = Some (Sample.e_acute_json, v)).
  { unfold record_of. change (skipn 6 (lit "data: " ++ Sample.e_acute_json))
      with Sample.e_acute_json. rewrite Hv. reflexivity. }
  assert (Rs : record_of (lit "data: " ++ Sample.replaced_json)
               = match JSON_parse Sample.replaced_json with
                 | Some r => Some (Sample.replaced_json, r)
                 | None => None
                 end) by reflexivity.
  rewrite Rw, Rs.
  split; [reflexivity|].
  destruct (JSON_parse Sample.replaced_json); (split; [reflexivity | discriminate]).
Qed.

Lemma chunk_boundary_inside_a_character_witness :
  @JSON_parse (Sample.host Sample.silent) Sample.e_acute_json = Some (JString [0xE9])
  /\ fst (@Relay.observe (Sample.host Sample.silent)
            (Sample.ends_after [Sample.e_acute_head ++ Sample.e_acute_tail]))
     = [Sample.e_acute_json]
  /\ fst (@Relay.observe (Sample.host Sample.silent)
            (Sample.ends_after [Sample.e_acute_head; Sample.e_acute_tail]))
     = [Sample.replaced_json].
Proof.
  pose proof (@chunk_boundary_inside_a_character (Sample.host Sample.silent)
                (JString [0xE9]) eq_refl) as [W [S _]].
  split; [reflexivity|]. split; [rewrite W; reflexivity | exact S].
Defined.

End RelayTheorems.

(* ------------------------------------------------------------------------- *)
(** ** Facts on the workflow handler                                          *)
(* ------------------------------------------------------------------------- *)

Module WorkflowFacts.

Import Workflow WorkflowSpec RelaySpec RelayFacts.

Lemma write_all_nil s : write_all [] s = s.
Proof.
  destruct s as [p [c h w e]]. unfold write_all. cbn. rewrite app_nil_r. reflexivity.
Qed.

Lemma write_all_cons w ws s :
  write_all ws (fst (res_write w s)) = write_all (w :: ws) s.
Proof.
  unfold write_all, res_write, on_res, write. cbn. rewrite <- app_assoc. reflexivity.
Qed.

Lemma write_all_app ws ws' s :
  write_all ws' (write_all ws s) = write_all (ws ++ ws') s.
Proof.
  unfold write_all. cbn. rewrite app_assoc. reflexivity.
Qed.

Section Facts.

Context `{Host}.
Variable config : Config.

(** The callback of step 1 over the records of a response. *)
Lemma pull_deliver frames s targetPath :
  deliver (State * JSON) pull_onData (records frames) (s, targetPath)
  = (write_all (map pull_progress_frame (records frames)) s,
     fold_left pick_targetPath (records frames) targetPath).
Proof.
  revert s targetPath. induction frames as [|f frames IH]; intros s targetPath.
  - cbn. rewrite write_all_nil. reflexivity.
  - cbn [records]. unfold record_of.
    destruct (startsWith f (lit "data: ")); [|apply IH].
    destruct (JSON_parse (skipn 6 f)) as [r|] eqn:Ep; [|apply IH].
    rewrite deliver_cons. cbn [fst map].
    assert (Step : fst (pull_onData (skipn 6 f) (s, targetPath))
                   = (fst (res_write (pull_progress_frame (skipn 6 f, r)) s),
                      pick_targetPath targetPath (skipn 6 f, r))).
    { unfold pull_onData, pick_targetPath, pull_progress_frame. rewrite Ep.
      cbn [snd]. destruct (get_property (lit "targetPath") r) as [e|[p|]];
        [reflexivity | destruct (truthy p); reflexivity | reflexivity]. }
    rewrite Step, IH, write_all_cons. reflexivity.
Qed.

(** The callback of step 2 over the records of a response. *)
Lemma execute_deliver rs s :
  deliver (State * unit) execute_onData rs (s, tt)
  = (write_all (map forwarded_frame rs) s, tt).
Proof.
  revert s. induction rs as [|r rs IH]; intro s.
  - cbn. rewrite write_all_nil. reflexivity.
  - rewrite deliver_cons. cbn [map].
    change (fst (execute_onData (fst r) (s, tt)))
      with (fst (res_write (forwarded_frame r) s), tt).
    rewrite IH, write_all_cons. reflexivity.
Qed.

Lemma await_pull url data targetPath s :
  await_streamSSE url data pull_onData targetPath s
  = let rs := records (stream_frames (http_post url data)) in
    (write_all (map pull_progress_frame rs) s,
     match ending (http_post url data) with
     | StreamEnd => Returned (fold_left pick_targetPath rs targetPath)
     | StreamError e => Threw e
     end).
Proof.
  unfold await_streamSSE, Relay.streamSSE. rewrite respond_spec, pull_deliver.
  cbv zeta. destruct (ending (http_post url data)); reflexivity.
Qed.

Lemma await_execute url data s :
  await_streamSSE url data execute_onData tt s
  = let rs := records (stream_frames (http_post url data)) in
    (write_all (map forwarded_frame rs) s,
     match ending (http_post url data) with
     | StreamEnd => Returned tt
     | StreamError e => Threw e
     end).
Proof.
  unfold await_streamSSE, Relay.streamSSE. rewrite respond_spec, execute_deliver.
  cbv zeta. destruct (ending (http_post url data)); reflexivity.
Qed.

Lemma bind_run {A B} (c : M A) (k : A -> M B) s :
  bind c k s = match c s with
               | (s', Returned a) => k a s'
               | (s', Threw e) => (s', Threw e)
               end.
Proof. reflexivity. Qed.

(** The statements of a handler, run on a state given by its fields. *)
Lemma run_set_serverStatus {A} v (k : unit -> M A) st cs x r :
  bind (set_serverStatus v) k
    {| process := {| serverStatus := st; console := cs; exit_timer := x |}; res := r |}
  = k tt {| process := {| serverStatus := v; console := cs; exit_timer := x |}; res := r |}.
Proof. reflexivity. Qed.

Lemma run_console_write {A} l (k : unit -> M A) st cs x r :
  bind (console_write l) k
    {| process := {| serverStatus := st; console := cs; exit_timer := x |}; res := r |}
  = k tt {| process := {| serverStatus := st; console := cs ++ [l]; exit_timer := x |};
            res := r |}.
Proof. reflexivity. Qed.

Lemma run_exit_after_delay code st cs x r :
  exit_after_delay code
    {| process := {| serverStatus := st; console := cs; exit_timer := x |}; res := r |}
  = ({| process := {| serverStatus := st; console := cs;
                      exit_timer := match x with Some c => Some c | None => Some code end |};
        res := r |}, Returned tt).
Proof. reflexivity. Qed.

Lemma run_res_setHeader {A} n v (k : unit -> M A) p c h w e :
  bind (res_setHeader n v) k
    {| process := p; res := {| statusCode := c; headers := h; written := w; ended := e |} |}
  = k tt {| process := p;
            res := {| statusCode := c; headers := h ++ [(lit n, lit v)];
                      written := w; ended := e |} |}.
Proof. reflexivity. Qed.

Lemma run_res_write {A} f (k : unit -> M A) p c h w e :
  bind (res_write f) k
    {| process := p; res := {| statusCode := c; headers := h; written := w; ended := e |} |}
  = k tt {| process := p;
            res := {| statusCode := c; headers := h; written := w ++ [f]; ended := e |} |}.
Proof. reflexivity. Qed.

Lemma run_res_end {A} (k : unit -> M A) p c h w e :
  bind res_end k
    {| process := p; res := {| statusCode := c; headers := h; written := w; ended := e |} |}
  = k tt {| process := p;
            res := {| statusCode := c; headers := h; written := w; ended := true |} |}.
Proof. reflexivity. Qed.

Lemma run_write_all ws p c h w e :
  write_all ws
    {| process := p; res := {| statusCode := c; headers := h; written := w; ended := e |} |}
  = {| process := p;
       res := {| statusCode := c; headers := h; written := w ++ ws; ended := e |} |}.
Proof. reflexivity. Qed.

Ltac run_statements :=
  repeat (rewrite run_res_write || rewrite run_res_setHeader || rewrite run_res_end
          || rewrite run_console_write || rewrite run_set_serverStatus
          || rewrite run_exit_after_delay).

(** The [catch] block, run. *)
Lemma workflow_catch_run workflowId error st cs x c h w e :
  workflow_catch workflowId error
    {| process := {| serverStatus := st; console := cs; exit_timer := x |};
       res := {| statusCode := c; headers := h; written := w; ended := e |} |}
  = ({| process :=
          {| serverStatus := st;
             console := (cs ++ [console_error (lit "Workflow error:") error])
                        ++ [console_log (lit "Workflow failed. Exiting process...")];
             exit_timer := match x with Some c => Some c | None => Some 1%Z end |};
        res := {| statusCode := c; headers := h;
                  written := w ++ [error_frame workflowId error]; ended := true |} |},
     Returned tt).
Proof. unfold workflow_catch. run_statements. reflexivity. Qed.

(** The [try] block, run. *)
Lemma workflow_try_run workflowId b st cs x c h w e :
  workflow_try config workflowId b
    {| process := {| serverStatus := st; console := cs; exit_timer := x |};
       res := {| statusCode := c; headers := h; written := w; ended := e |} |}
  = match ending (pull_response config b) with
    | StreamError e1 =>
        ({| process := {| serverStatus := st; console := cs; exit_timer := x |};
            res := {| statusCode := c; headers := h;
                      written := w ++ step1_frames config workflowId b;
                      ended := e |} |}, Threw e1)
    | StreamEnd =>
        match ending (execute_response config b) with
        | StreamError e2 =>
            ({| process := {| serverStatus := st; console := cs; exit_timer := x |};
                res := {| statusCode := c; headers := h;
                          written := (w ++ step1_frames config workflowId b)
                                     ++ step2_frames config workflowId b;
                          ended := e |} |}, Threw e2)
        | StreamEnd =>
            ({| process :=
                  {| serverStatus := st;
                     console := cs ++ [console_log
                                         (lit "Workflow completed successfully. Exiting process...")];
                     exit_timer := match x with Some c => Some c | None => Some 0%Z end |};
                res := {| statusCode := c; headers := h;
                          written := ((w ++ step1_frames config workflowId b)
                                      ++ step2_frames config workflowId b)
                                     ++ [complete_frame workflowId];
                          ended := true |} |}, Returned tt)
        end
    end.
Proof.
  unfold workflow_try. run_statements.
  rewrite bind_run, await_pull. cbv zeta. rewrite run_write_all.
  fold (pull_response config b). fold (pull_records config b).
  assert (W1 : forall f1 f2 l, ((w ++ [f1]) ++ [f2]) ++ l = w ++ ([f1; f2] ++ l)).
  { intros. rewrite <- !app_assoc. reflexivity. }
  rewrite W1. fold (step1_frames config workflowId b).
  destruct (ending (pull_response config b)) as [|e1]; [|reflexivity].
  fold (targetPath_of_pull config b).
  set (w1 := w ++ step1_frames config workflowId b).
  run_statements.
  rewrite bind_run, await_execute. cbv zeta. rewrite run_write_all.
  fold (execute_response config b). fold (execute_records config b).
  assert (W2 : forall f1 f2 f3 l,
             (((w1 ++ [f1]) ++ [f2]) ++ [f3]) ++ l = w1 ++ ([f1; f2; f3] ++ l)).
  { intros. rewrite <- !app_assoc. reflexivity. }
  rewrite W2. fold (step2_frames config workflowId b).
  destruct (ending (execute_response config b)) as [|e2]; [|reflexivity].
  run_statements. reflexivity.
Qed.

(** A well-formed request, served: the flag, the console, the exit timer and
    the whole response. *)
Lemma postWorkflow_trace workflowId b p :
  well_formed b = true ->
  serve (postWorkflow config workflowId b) p
  = ({| serverStatus := busy;
        console := console p ++ workflow_console config b;
        exit_timer := match exit_timer p with
                      | Some c => Some c
                      | None => Some (workflow_exit_code config b)
                      end |},
     {| statusCode := 200; headers := sse_headers;
        written := workflow_frames config workflowId b; ended := true |}).
Proof.
  intro Hw. unfold well_formed in Hw. apply andb_true_iff in Hw as [Hp Hr].
  unfold serve, postWorkflow. rewrite Hp, Hr. cbn [negb orb].
  destruct p as [st cs x]. unfold fresh_res. run_statements.
  unfold try_catch. rewrite workflow_try_run.
  unfold workflow_frames, workflow_console, workflow_exit_code, fatal_error.
  cbn [console exit_timer].
  destruct (ending (pull_response config b)) as [|e1].
  - destruct (ending (execute_response config b)) as [|e2].
    + cbn [fst process res app]. rewrite <- app_assoc. reflexivity.
    + rewrite workflow_catch_run. cbn [fst process res app].
      rewrite <- !app_assoc. reflexivity.
  - rewrite workflow_catch_run. cbn [fst process res app].
    rewrite <- !app_assoc. reflexivity.
Qed.

End Facts.

End WorkflowFacts.

(* ------------------------------------------------------------------------- *)
(** ** The workflow server: the flag, the probe, validation, fatal errors     *)
(* ------------------------------------------------------------------------- *)

Module WorkflowTheorems.

Import Workflow WorkflowSpec RelaySpec WorkflowFacts.




(** C7 (amended). The busy/idle probe answers with HTTP status 200 whatever
    the flag holds, and reports the flag, [idle] or [busy], in the [status]
    field of its JSON body; it changes nothing in the process. *)
Theorem getStatus_reports_flag_with_200 p :
  serve getStatus p
  = (p, {| statusCode := 200;
           headers := [(lit "Content-Type", lit "application/json; charset=utf-8")];
           written := [Json (object ["status" ~> Some (JString (Status_text (serverStatus p)))])];
           ended := true |}).
Proof. reflexivity. Qed.

(** C7 (counterexample). On a busy process the probe answers 200, not 429. *)
Lemma getStatus_busy_is_not_429 :
  serverStatus Sample.busy_process = busy
  /\ statusCode (snd (serve getStatus Sample.busy_process)) = 200
  /\ statusCode (snd (serve getStatus Sample.busy_process)) <> 429.
Proof. repeat split. discriminate. Qed.

Section Handler.

Context `{Host}.
Variable config : Config.
Variable workflowId : jsstring.

Lemma missing_field_is_rejected_status b p :
  truthy_opt (prompt b) = false \/ truthy_opt (repoUrl b) = false ->
  statusCode (snd (serve (postWorkflow config workflowId b) p)) = 400.
Proof.
  intro Hm. unfold serve, postWorkflow.
  assert (E : negb (truthy_opt (prompt b)) || negb (truthy_opt (repoUrl b)) = true).
  { destruct Hm as [Hm|Hm]; rewrite Hm; [reflexivity | apply orb_true_r]. }
  rewrite E. reflexivity.
Qed.

(** A body in which [prompt] or [repoUrl] is missing (or falsy) is answered
    with status 400 and the validation error, before anything else happens:
    the process, its busy/idle flag with it, is left as it was, and no frame
    is written on the response. *)
Lemma missing_field_is_rejected b p :
  truthy_opt (prompt b) = false \/ truthy_opt (repoUrl b) = false ->
  serve (postWorkflow config workflowId b) p
  = (p, {| statusCode := 400;
           headers := [(lit "Content-Type", lit "application/json; charset=utf-8")];
           written := [Json (object ["error" ~> str "prompt and repoUrl are required"])];
           ended := true |}).
Proof.
  intro Hm. unfold serve, postWorkflow.
  assert (E : negb (truthy_opt (prompt b)) || negb (truthy_opt (repoUrl b)) = true).
  { destruct Hm as [Hm|Hm]; rewrite Hm; [reflexivity | apply orb_true_r]. }
  rewrite E. reflexivity.
Qed.

(** The endpoint answers 200 or 400, and 429 to no request. *)
Lemma postWorkflow_answers_200_or_400 b p :
  statusCode (snd (serve (postWorkflow config workflowId b) p))
  = if well_formed b then 200 else 400.
Proof.
  destruct (well_formed b) eqn:Hw.
  - rewrite (postWorkflow_trace config workflowId b p Hw). reflexivity.
  - rewrite missing_field_is_rejected_status; [reflexivity|].
    unfold well_formed in Hw. apply andb_false_iff in Hw. exact Hw.
Qed.


End Handler.





(** C4 (counterexample). Both downstream responses carry a frame that does not
    parse, then a frame that does.  The workflow completes, the good frames are
    forwarded, and the console holds the closing line only: nothing was logged
    for the dropped frames. *)
Lemma dropped_frame_is_not_logged :
  stream_frames Sample.broken_then_true = [lit "data: {oops"; lit "data: true"]
  /\ @JSON_parse (Sample.answering Sample.broken_then_true) (lit "{oops") = None
  /\ console (fst (@serve (@postWorkflow (Sample.answering Sample.broken_then_true)
                             default_config Sample.workflowId Sample.request) boot))
     = [console_log (lit "Workflow completed successfully. Exiting process...")]
  /\ filter (fun w => match w with FrameText _ => true | _ => false end)
       (written (snd (@serve (@postWorkflow (Sample.answering Sample.broken_then_true)
                                default_config Sample.workflowId Sample.request) boot)))
     = [FrameText (lit "true")].
Proof. repeat split. Qed.

End WorkflowTheorems.

(* ------------------------------------------------------------------------- *)
(** ** The commit message: the fallback                                       *)
(* ------------------------------------------------------------------------- *)

Module LLMHelperTheorems.

Import LLMHelper.

Section Generate.

Variable create : Client -> CreateParams -> Created.
Variable client : Client.

(** The message is the fallback, or the trimmed text of the first block of a
    response: the function returns a string on every input and throws on
    none. *)
Lemma generateCommitMessage_total gitStatus gitDiff :
  fst (generateCommitMessage create client gitStatus gitDiff) = FALLBACK
  \/ exists text rest,
       create client (create_params gitStatus gitDiff) = response (text_block text :: rest)
       /\ fst (generateCommitMessage create client gitStatus gitDiff) = trim text.
Proof.
  unfold generateCommitMessage, generate_try.
  destruct (create client (create_params gitStatus gitDiff)) as [[|[text|ty] rest]|e];
    try (left; reflexivity).
  right. exists text, rest. split; reflexivity.
Qed.

(** A response without a text block in front is a failure too. *)
Lemma generateCommitMessage_unexpected_block gitStatus gitDiff ty rest :
  create client (create_params gitStatus gitDiff) = response (other_block ty :: rest) ->
  fst (generateCommitMessage create client gitStatus gitDiff) = FALLBACK.
Proof.
  intro E. unfold generateCommitMessage, generate_try. rewrite E. reflexivity.
Qed.

(** C8. When the call to the model fails, whatever the error (a timeout is
    one), [generateCommitMessage] does not throw: it logs the error and
    returns the literal [chore: auto-commit changes]. *)
Theorem generateCommitMessage_falls_back gitStatus gitDiff error :
  create client (create_params gitStatus gitDiff) = failed error ->
  generateCommitMessage create client gitStatus gitDiff
  = (lit "chore: auto-commit changes",
     [logger_error (lit "Failed to generate commit message") error]).
Proof.
  intro E. unfold generateCommitMessage, generate_try. rewrite E. reflexivity.
Qed.

End Generate.

Lemma generateCommitMessage_falls_back_witness :
  Sample.timing_out Sample.api_client (create_params (lit " M README.md") (lit "diff --git"))
    = failed (ErrorObject (lit "Request timed out."))
  /\ fst (generateCommitMessage Sample.timing_out Sample.api_client
            (lit " M README.md") (lit "diff --git"))
     = lit "chore: auto-commit changes".
Proof.
  split; [reflexivity|].
  rewrite (generateCommitMessage_falls_back Sample.timing_out Sample.api_client
             (lit " M README.md") (lit "diff --git")
             (ErrorObject (lit "Request timed out.")) eq_refl).
  reflexivity.
Defined.

(** A response with a text block gives the text, trimmed. *)
Example generateCommitMessage_text :
  fst (generateCommitMessage Sample.answering_text Sample.api_client
         (lit " M README.md") (lit "diff --git"))
  = lit "feat: add README".
Proof. reflexivity. Qed.

End LLMHelperTheorems.

(* ------------------------------------------------------------------------- *)
(** ** The provider: the permission mode                                      *)
(* ------------------------------------------------------------------------- *)

Module ClaudeCodeProviderTheorems.

Import ClaudeCodeProvider.

Lemma createQueryOptions_mode this options :
  (requested_skip options = None ->
   allowDangerouslySkipPermissions (createQueryOptions this options) = true
   /\ permissionMode (createQueryOptions this options) = bypassPermissions)
  /\ (permissionMode (createQueryOptions this options) = default
      <-> requested_skip options = Some false).
Proof.
  unfold createQueryOptions, requested_skip, nullish.
  cbn [allowDangerouslySkipPermissions permissionMode].
  destruct (providerOptions options) as [[m [[|]|]]|]; cbn;
    (split; [intro E; try discriminate E; split; reflexivity
            | split; intro E; try discriminate E; reflexivity]).
Qed.

(** C10. [execute] invokes the execution capability once, with the request of
    the user and the options of [createQueryOptions]: whatever [query] is,
    what [execute] passes on is what [query] gives on that argument.  In that
    argument, when the caller left [skipPermissions] unset,
    [allowDangerouslySkipPermissions] is on and the permission mode is
    [bypassPermissions]; the mode is [default] exactly when [skipPermissions]
    was set to [false]. *)
Theorem execute_queries_in_bypass_mode_by_default this userRequest options :
  exists q : QueryArgs,
    query_prompt q = userRequest
    /\ query_options q = createQueryOptions this options
    /\ (requested_skip options = None ->
        allowDangerouslySkipPermissions (query_options q) = true
        /\ permissionMode (query_options q) = bypassPermissions)
    /\ (permissionMode (query_options q) = default
        <-> requested_skip options = Some false)
    /\ forall (SDKMessage : Type) (query : QueryArgs -> list SDKMessage * option Thrown),
         execute SDKMessage query this userRequest options
         = (map (assistant_message SDKMessage) (fst (query q)), snd (query q)).
Proof.
  exists (query_call this userRequest options).
  destruct (createQueryOptions_mode this options) as [Hunset Hdefault].
  split; [reflexivity|]. split; [reflexivity|].
  split; [exact Hunset|]. split; [exact Hdefault|].
  intros SDKMessage query. unfold execute.
  destruct (query (query_call this userRequest options)) as [stream error].
  reflexivity.
Qed.

Lemma execute_queries_in_bypass_mode_by_default_witness :
  requested_skip Sample.plain_options = None
  /\ execute PermissionMode Sample.echo_mode Sample.provider (lit "fix the bug")
       Sample.plain_options
     = ([assistant_message PermissionMode bypassPermissions], None).
Proof.
  split; [reflexivity|].
  destruct (execute_queries_in_bypass_mode_by_default Sample.provider (lit "fix the bug")
              Sample.plain_options) as [q [_ [_ [Hunset [_ Hrun]]]]].
  rewrite (Hrun PermissionMode Sample.echo_mode).
  unfold Sample.echo_mode. cbn [fst snd map].
  rewrite (proj2 (Hunset eq_refl)). reflexivity.
Defined.

(** With [skipPermissions] set to [false] the capability is invoked in the
    mode that enforces permissions. *)
Example execute_enforcing :
  execute PermissionMode Sample.echo_mode Sample.provider (lit "fix the bug")
    Sample.enforcing_options
  = ([assistant_message PermissionMode default], None).
Proof. reflexivity. Qed.

(** The mode that enforces permissions, asked for. *)
Example enforcing_options_give_default :
  permissionMode (createQueryOptions Sample.provider Sample.enforcing_options) = default
  /\ allowDangerouslySkipPermissions
       (createQueryOptions Sample.provider Sample.enforcing_options) = false.
Proof. split; reflexivity. Qed.

End ClaudeCodeProviderTheorems.

(* ------------------------------------------------------------------------- *)
(** ** More on the relay: calls, tails, frames written and read back          *)
(* ------------------------------------------------------------------------- *)

Module RelayProperties.

Import JSFacts RelaySpec RelayFacts Framing RelayExtras.

Lemma fold_left_map {A B C} (f : A -> B -> A) (g : C -> B) (l : list C) (a : A) :
  fold_left f (map g l) a = fold_left (fun a x => f a (g x)) l a.
Proof.
  revert a. induction l as [|x l IH]; intro a; [reflexivity|].
  cbn [map fold_left]. apply IH.
Qed.

(** The complete frames of a text made of frames. *)
Lemma frames_of_framed d texts :
  Forall (fun t => frameable t = true) texts ->
  stream_text d = framed texts ->
  stream_frames d = map (app (lit "data: ")) texts.
Proof.
  intros Hf Ht. unfold stream_frames, complete_frames.
  rewrite Ht, (split_framed texts Hf). apply removelast_last.
Qed.

Section Properties.

Context `{Host}.

(** What the relay hands over is frameable: it comes from a piece closed by
    the delimiter, cut after the marker. *)
Lemma calls_are_frameable d :
  Forall (fun r => frameable (fst r) = true) (records (stream_frames d)).
Proof.
  pose proof (RelayTheorems.split_pieces_clean (stream_text d)) as Hclean.
  apply Forall_removelast in Hclean.
  pose proof (closed_pieces_end (stream_text d)) as Hend.
  eapply Forall_impl; [|apply (records_sound (stream_frames d))].
  intros r [_ [f [Hin Hf]]]. apply frameable_spec. rewrite Hf.
  unfold stream_frames, complete_frames in Hin.
  rewrite Forall_forall in Hclean, Hend. split.
  - apply contains_nn_skipn. apply Hclean. exact Hin.
  - apply last_skipn. apply Hend. exact Hin.
Qed.

Variable St : Type.
Variable onData : jsstring -> St -> St * option Thrown.

(** X2. The callback cannot disturb the relay: whatever [onData] does, and
    also when it throws, it is called once for each text the relay yields, in
    order, and the promise settles as it does for any other callback. *)
Theorem callback_cannot_disturb_the_relay d st :
  Relay.respond St onData d st
  = (fold_left (fun st y => fst (onData y st)) (fst (Relay.observe d)) st,
     snd (Relay.observe d)).
Proof.
  rewrite respond_spec, observe_spec. cbn [fst snd]. f_equal.
  unfold deliver. symmetry. apply fold_left_map.
Qed.

(** X3. Every text handed to [onData] parses, and the value the promise
    resolves with is the parse of the last of them ([null] when none was
    handed over). *)
Theorem calls_parse_and_the_last_is_the_result d :
  Forall (fun y => JSON_parse y <> None) (fst (Relay.observe d))
  /\ snd (Relay.observe d)
     = Relay.settle (ending d)
         match rev (fst (Relay.observe d)) with
         | [] => JNull
         | y :: _ => match JSON_parse y with
                     | Some v => v
                     | None => JNull
                     end
         end.
Proof.
  rewrite observe_spec. cbn [fst snd].
  pose proof (records_sound (stream_frames d)) as Hs.
  split.
  - apply Forall_map. eapply Forall_impl; [|exact Hs].
    intros r [Hp _]. rewrite Hp. discriminate.
  - f_equal.
    destruct (records (stream_frames d)) as [|r0 rs0] eqn:E using rev_ind;
      [reflexivity|].
    rewrite !map_app, rev_app_distr. cbn [map rev app].
    rewrite last_last.
    apply Forall_app in Hs as [_ Hr]. inversion Hr as [|? ? [Hp _] _]; subst.
    rewrite Hp. reflexivity.
Qed.

(** X4. A last frame that lacks its double newline is lost: text that comes
    after the last delimiter and holds no delimiter changes neither the calls
    nor the result, also when the response ends right after it. *)
Theorem unterminated_tail_is_dropped d d' t st :
  stream_text d' = stream_text d ++ t ->
  contains_nn (retained (stream_text d) ++ t) = false ->
  ending d' = ending d ->
  Relay.respond St onData d' st = Relay.respond St onData d st.
Proof.
  intros Ht Hc He. rewrite !respond_spec, He.
  assert (Hf : stream_frames d' = stream_frames d).
  { unfold stream_frames, complete_frames. rewrite Ht, removelast_split_app.
    unfold retained in Hc. rewrite (split_whole _ Hc). apply app_nil_r. }
  rewrite Hf. reflexivity.
Qed.

(** On the decoded text: a response whose text is the frames of what the
    relay yielded on [d] is relayed as [d] is. *)
Lemma relaying_the_text_again d d' st :
  stream_text d' = framed (fst (Relay.observe d)) ->
  ending d' = ending d ->
  Relay.respond St onData d' st = Relay.respond St onData d st.
Proof.
  rewrite observe_spec. cbn [fst]. intros Ht He.
  rewrite !respond_spec, He.
  assert (Hf : stream_frames d'
               = map (app (lit "data: ")) (map fst (records (stream_frames d)))).
  { apply frames_of_framed; [|exact Ht].
    apply Forall_map. apply calls_are_frameable. }
  rewrite Hf, records_of_records; [reflexivity|].
  eapply Forall_impl; [|apply (records_sound (stream_frames d))].
  intros r [Hp _]. exact Hp.
Qed.

End Properties.

(** On the decoded text: a response whose text is the frames of [texts]
    yields [texts]. *)
Lemma framed_text_is_read_back `{Host} d texts :
  Forall (fun t => frameable t = true) texts ->
  Forall (fun t => JSON_parse t <> None) texts ->
  stream_text d = framed texts ->
  fst (Relay.observe d) = texts.
Proof.
  intros Hf Hp Ht. rewrite observe_spec. cbn [fst].
  rewrite (frames_of_framed d texts Hf Ht).
  clear Hf Ht. induction Hp as [|t texts Hpt Hpts IH]; [reflexivity|].
  cbn [map records]. rewrite record_of_marker.
  destruct (JSON_parse t) as [v|]; [|congruence].
  cbn [map fst]. rewrite IH. reflexivity.
Qed.

Lemma respond_ascii_chunks_witness :
  forallb is_ascii Scenarios.three_frames_cut = true
  /\ @Relay.observe (Sample.host Sample.silent)
       {| chunks := Scenarios.three_frames_cut; ending := StreamEnd |}
     = ([lit "true"; lit "null"; lit "false"], Relay.Resolved (JBool false)).
Proof.
  split; [reflexivity|]. unfold Relay.observe.
  rewrite (@RelayTheorems.respond_ascii_chunks (Sample.host Sample.silent) _
             Relay.record_call Scenarios.three_frames_cut StreamEnd [] eq_refl).
  reflexivity.
Defined.

Lemma unterminated_tail_is_dropped_witness :
  stream_text Scenarios.unterminated
    = stream_text Scenarios.terminated ++ lit "data: false"
  /\ contains_nn (retained (stream_text Scenarios.terminated) ++ lit "data: false") = false
  /\ ending Scenarios.unterminated = ending Scenarios.terminated
  /\ @Relay.observe (Sample.host Sample.silent) Scenarios.unterminated
     = ([lit "true"], Relay.Resolved (JBool true)).
Proof.
  split; [reflexivity|]. split; [reflexivity|]. split; [reflexivity|].
  unfold Relay.observe.
  rewrite (@unterminated_tail_is_dropped (Sample.host Sample.silent) _ Relay.record_call
             Scenarios.terminated Scenarios.unterminated (lit "data: false") []
             eq_refl eq_refl eq_refl).
  reflexivity.
Defined.

(** The text of a response of ASCII chunks: its bytes. *)
Lemma stream_text_of_ascii cs e :
  forallb is_ascii cs = true ->
  stream_text {| chunks := cs; ending := e |} = map Byte.to_N (List.concat cs).
Proof.
  unfold stream_text. cbn [chunks].
  induction cs as [|c cs IH]; intro Ha; [reflexivity|].
  cbn [forallb] in Ha. apply andb_true_iff in Ha as [Hc Ha].
  cbn [map List.concat]. rewrite map_app, (IH Ha), (RelayTheorems.toString_ascii c Hc).
  reflexivity.
Qed.

(** X5. Frames written are frames read, in ASCII: when the bytes of a
    response, all ASCII and cut in chunks anywhere, spell texts written each
    as [data: ], the text and a double newline, and the texts parse, hold no
    double newline and do not end with a newline, then the relay hands the
    texts to the callback as they were written, in order. *)
Theorem framed_ascii_texts_are_read_back `{Host} cs e texts :
  forallb is_ascii cs = true ->
  map Byte.to_N (List.concat cs) = framed texts ->
  Forall (fun t => frameable t = true) texts ->
  Forall (fun t => JSON_parse t <> None) texts ->
  fst (Relay.observe {| chunks := cs; ending := e |}) = texts.
Proof.
  intros Ha Hb Hf Hp. apply framed_text_is_read_back; [exact Hf | exact Hp|].
  rewrite (stream_text_of_ascii cs e Ha). exact Hb.
Qed.

(** X6. Relaying twice changes nothing, in ASCII: no text the relay yields
    holds a double newline or ends with a newline; and when the texts it
    yields on a response are written out as frames [data: ], text, double
    newline, the way step 2 of the workflow forwards them, and these frames
    reach a second relay as ASCII bytes cut in chunks anywhere, the second
    relay makes the same calls of any callback and settles in the same way. *)
Theorem relaying_ascii_frames_again_changes_nothing `{Host} d :
  Forall (fun y => frameable y = true) (fst (Relay.observe d))
  /\ forall cs,
       forallb is_ascii cs = true ->
       map Byte.to_N (List.concat cs) = framed (fst (Relay.observe d)) ->
       forall St (onData : jsstring -> St -> St * option Thrown) st,
         Relay.respond St onData {| chunks := cs; ending := ending d |} st
         = Relay.respond St onData d st.
Proof.
  split.
  - rewrite observe_spec. cbn [fst]. apply Forall_map. apply calls_are_frameable.
  - intros cs Ha Hb St onData st. apply relaying_the_text_again; [|reflexivity].
    rewrite (stream_text_of_ascii cs (ending d) Ha). exact Hb.
Qed.

Lemma framed_ascii_texts_are_read_back_witness :
  forallb is_ascii Scenarios.three_frames_cut = true
  /\ map Byte.to_N (List.concat Scenarios.three_frames_cut)
     = framed [lit "true"; lit "null"; lit "false"]
  /\ Forall (fun t => frameable t = true) [lit "true"; lit "null"; lit "false"]
  /\ Forall (fun t => @JSON_parse (Sample.host Sample.silent) t <> None)
       [lit "true"; lit "null"; lit "false"]
  /\ fst (@Relay.observe (Sample.host Sample.silent)
            {| chunks := Scenarios.three_frames_cut; ending := StreamEnd |})
     = [lit "true"; lit "null"; lit "false"].
Proof.
  assert (Hf : Forall (fun t => frameable t = true) [lit "true"; lit "null"; lit "false"])
    by (repeat constructor).
  assert (Hp : Forall (fun t => @JSON_parse (Sample.host Sample.silent) t <> None)
                 [lit "true"; lit "null"; lit "false"])
    by (repeat constructor; discriminate).
  split; [reflexivity|]. split; [reflexivity|]. split; [exact Hf|]. split; [exact Hp|].
  exact (@framed_ascii_texts_are_read_back (Sample.host Sample.silent)
           Scenarios.three_frames_cut StreamEnd
           [lit "true"; lit "null"; lit "false"] eq_refl eq_refl Hf Hp).
Defined.

Lemma relaying_ascii_frames_again_changes_nothing_witness :
  forallb is_ascii [List.concat Scenarios.three_frames_cut] = true
  /\ map Byte.to_N (List.concat [List.concat Scenarios.three_frames_cut])
     = framed (fst (@Relay.observe (Sample.host Sample.silent)
                      (Sample.ends_after Scenarios.broken_frames_cut)))
  /\ @Relay.observe (Sample.host Sample.silent)
       {| chunks := [List.concat Scenarios.three_frames_cut]; ending := StreamEnd |}
     = @Relay.observe (Sample.host Sample.silent)
         (Sample.ends_after Scenarios.broken_frames_cut).
Proof.
  split; [reflexivity|]. split; [reflexivity|].
  exact (proj2 (@relaying_ascii_frames_again_changes_nothing (Sample.host Sample.silent)
                  (Sample.ends_after Scenarios.broken_frames_cut))
           [List.concat Scenarios.three_frames_cut] eq_refl eq_refl
           _ Relay.record_call []).
Defined.

End RelayProperties.

(* ------------------------------------------------------------------------- *)
(** ** More on the workflow server                                            *)
(* ------------------------------------------------------------------------- *)

Module WorkflowProperties.

Import Workflow WorkflowSpec Server RelaySpec RelayExtras WorkflowFacts.




Section Properties.

Context `{Host}.
Variable config : Config.

Lemma rejected_leaves_process workflowId b p :
  well_formed b = false ->
  fst (serve (postWorkflow config workflowId b) p) = p.
Proof.
  intro Hw. unfold well_formed in Hw. unfold serve, postWorkflow.
  assert (E : negb (truthy_opt (prompt b)) || negb (truthy_opt (repoUrl b)) = true).
  { apply andb_false_iff in Hw as [Hw|Hw]; rewrite Hw; [reflexivity | apply orb_true_r]. }
  rewrite E. reflexivity.
Qed.

Lemma handler_flag r p :
  serverStatus (fst (serve (handler config r) p))
  = if starts_a_job r then busy else serverStatus p.
Proof.
  destruct r as [| |workflowId b]; try reflexivity.
  cbn [handler starts_a_job]. destruct (well_formed b) eqn:Hw.
  - rewrite (postWorkflow_trace config workflowId b p Hw). reflexivity.
  - rewrite (rejected_leaves_process workflowId b p Hw). reflexivity.
Qed.

(** X11. No request sets the flag back to idle: after any requests served by
    one process, health and status probes and workflow requests in any order,
    the flag is busy if one of them was a workflow request with both required
    fields, and is what it was otherwise. *)
Theorem flag_is_never_set_back_to_idle rs p :
  serverStatus (fst (serve_all config rs p))
  = if existsb starts_a_job rs then busy else serverStatus p.
Proof.
  revert p. induction rs as [|r rs IH]; intro p; [reflexivity|].
  cbn [serve_all existsb].
  pose proof (handler_flag r p) as Hr.
  destruct (serve (handler config r) p) as [p1 response].
  specialize (IH p1).
  destruct (serve_all config rs p1) as [p2 responses].
  cbn [fst] in *. rewrite IH, Hr.
  destruct (starts_a_job r), (existsb starts_a_job rs); reflexivity.
Qed.

Variable workflowId : jsstring.


End Properties.


(** The flag over some traffic: idle until the first accepted workflow, busy
    from then on, with every probe answered 200. *)
Example flag_over_traffic :
  serverStatus (fst (@serve_all (Sample.host Sample.silent) default_config
                       Scenarios.traffic boot)) = busy
  /\ map statusCode (snd (@serve_all (Sample.host Sample.silent) default_config
                            Scenarios.traffic boot))
     = [200; 400; 200; 200; 200].
Proof. split; reflexivity. Qed.

End WorkflowProperties.

(* ------------------------------------------------------------------------- *)
(** ** More on the commit message                                             *)
(* ------------------------------------------------------------------------- *)

Module LLMHelperProperties.

Import LLMHelper LLMHelperSpec.

Lemma substring_0 n (s : jsstring) : substring 0 n s = firstn n s.
Proof. unfold substring. rewrite Nat.sub_0_r. reflexivity. Qed.

Lemma trimStart_head s :
  match trimStart s with
  | [] => True
  | c :: _ => is_space c = false
  end.
Proof.
  induction s as [|c s IH]; [exact I|].
  cbn [trimStart]. destruct (is_space c) eqn:E; [exact IH | exact E].
Qed.

Lemma trimStart_suffix s : exists pre, s = pre ++ trimStart s.
Proof.
  induction s as [|c s [pre IH]]; [exists []; reflexivity|].
  cbn [trimStart]. destruct (is_space c).
  - exists (c :: pre). cbn [app]. f_equal. exact IH.
  - exists []. reflexivity.
Qed.

Lemma trimStart_blank s : forallb is_space s = true -> trimStart s = [].
Proof.
  induction s as [|c s IH]; [reflexivity|].
  cbn [forallb trimStart]. intro E. apply andb_true_iff in E as [Ec Es].
  rewrite Ec. apply IH. exact Es.
Qed.

(** A trimmed string has no white space at its head nor at its end. *)
Lemma trim_space_around s : space_around (trim s) = false.
Proof.
  unfold trim.
  pose proof (trimStart_head s) as Hhead.
  pose proof (trimStart_head (rev (trimStart s))) as Hlast.
  destruct (trimStart_suffix (rev (trimStart s))) as [pre Hpre].
  destruct (trimStart (rev (trimStart s))) as [|c u]; [reflexivity|].
  assert (Ht : trimStart s = rev (c :: u) ++ rev pre).
  { rewrite <- rev_app_distr, <- Hpre, rev_involutive. reflexivity. }
  cbn [rev] in *. destruct (rev u ++ [c]) as [|h w] eqn:E.
  - destruct (rev u); discriminate E.
  - rewrite Ht in Hhead. cbn [app] in Hhead.
    unfold space_around. rewrite Hhead. cbn [orb].
    rewrite <- E, last_last. exact Hlast.
Qed.

Section Properties.

Variable create : Client -> CreateParams -> Created.
Variable client : Client.

(** X12. Only the first 4000 code units of the diff count: two diffs that
    agree on them give the same request to the model and the same commit
    message. *)
Theorem only_the_head_of_the_diff_counts gitStatus diff1 diff2 :
  firstn 4000 diff1 = firstn 4000 diff2 ->
  create_params gitStatus diff1 = create_params gitStatus diff2
  /\ generateCommitMessage create client gitStatus diff1
     = generateCommitMessage create client gitStatus diff2.
Proof.
  intro E.
  assert (P : create_params gitStatus diff1 = create_params gitStatus diff2).
  { unfold create_params, prompt_text. rewrite !substring_0, E. reflexivity. }
  split; [exact P|].
  unfold generateCommitMessage, generate_try. rewrite P. reflexivity.
Qed.

(** X14. The commit message has no white space around it: what
    [generateCommitMessage] returns is empty or begins and ends with a code
    unit that is not white space. *)
Theorem commit_message_has_no_space_around gitStatus gitDiff :
  space_around (fst (generateCommitMessage create client gitStatus gitDiff)) = false.
Proof.
  destruct (LLMHelperTheorems.generateCommitMessage_total create client gitStatus gitDiff)
    as [E | [text [rest [_ E]]]]; rewrite E.
  - reflexivity.
  - apply trim_space_around.
Qed.

(** X15. A text block of white space only gives the empty commit message:
    the call succeeded, so the fallback is not used. *)
Theorem blank_text_gives_the_empty_message gitStatus gitDiff text rest :
  create client (create_params gitStatus gitDiff) = response (text_block text :: rest) ->
  forallb is_space text = true ->
  generateCommitMessage create client gitStatus gitDiff
  = ([], [logger_info (lit "Generated commit message") []]).
Proof.
  intros E Hb. unfold generateCommitMessage, generate_try. rewrite E.
  unfold trim. rewrite (trimStart_blank text Hb). reflexivity.
Qed.

(** X16. Only the first block of the response is read: when it is not a text
    block (or the content is empty) the fallback is returned and the error
    logged, also when a text block comes later. *)
Theorem first_block_decides gitStatus gitDiff content :
  create client (create_params gitStatus gitDiff) = response content ->
  first_is_text content = false ->
  fst (generateCommitMessage create client gitStatus gitDiff)
    = lit "chore: auto-commit changes"
  /\ exists error,
       snd (generateCommitMessage create client gitStatus gitDiff)
       = [logger_error (lit "Failed to generate commit message") error].
Proof.
  intros E Hf. unfold generateCommitMessage, generate_try. rewrite E.
  destruct content as [|[text|ty] rest]; [| discriminate Hf |];
    (split; [reflexivity | eexists; reflexivity]).
Qed.

End Properties.

(** X13. The request text is bounded whatever the size of the diff: its
    length is at most the fixed text (358 code units), the status and 4000
    code units of diff.  The status is not cut. *)
Theorem request_text_is_bounded gitStatus gitDiff :
  PROMPT_FRAME = 358%nat
  /\ (List.length (prompt_text gitStatus gitDiff)
      <= PROMPT_FRAME + List.length gitStatus + 4000)%nat
  /\ List.length (prompt_text gitStatus gitDiff)
     = (PROMPT_FRAME + List.length gitStatus + Nat.min 4000 (List.length gitDiff))%nat.
Proof.
  assert (L : List.length (prompt_text gitStatus gitDiff)
              = (PROMPT_FRAME + List.length gitStatus
                 + List.length (firstn 4000 gitDiff))%nat).
  { unfold PROMPT_FRAME, prompt_text. rewrite !substring_0, firstn_nil.
    rewrite !length_app. cbn [List.length].
    generalize (List.length (firstn 4000 gitDiff)) as d.
    generalize (List.length gitStatus) as g. intros g d. lia. }
  split; [vm_compute; reflexivity|]. split.
  - rewrite L. apply Nat.add_le_mono_l. apply firstn_le_length.
  - rewrite L, length_firstn. reflexivity.
Qed.

Lemma only_the_head_of_the_diff_counts_witness :
  firstn 4000 (repeat 97 4000 ++ lit "x") = firstn 4000 (repeat 97 4000 ++ lit "yz")
  /\ create_params (lit " M README.md") (repeat 97 4000 ++ lit "x")
     = create_params (lit " M README.md") (repeat 97 4000 ++ lit "yz").
Proof.
  assert (E : firstn 4000 (repeat 97 4000 ++ lit "x")
              = firstn 4000 (repeat 97 4000 ++ lit "yz"))
    by (vm_compute; reflexivity).
  split; [exact E|].
  exact (proj1 (only_the_head_of_the_diff_counts Sample.timing_out Sample.api_client
                  (lit " M README.md") _ _ E)).
Defined.

Lemma blank_text_gives_the_empty_message_witness :
  Scenarios.blank_text Sample.api_client (create_params (lit " M README.md") (lit "diff"))
    = response [text_block [32; 10; 9]]
  /\ forallb is_space [32; 10; 9] = true
  /\ fst (generateCommitMessage Scenarios.blank_text Sample.api_client
            (lit " M README.md") (lit "diff")) = [].
Proof.
  split; [reflexivity|]. split; [reflexivity|].
  rewrite (blank_text_gives_the_empty_message Scenarios.blank_text Sample.api_client
             (lit " M README.md") (lit "diff") [32; 10; 9] [] eq_refl eq_refl).
  reflexivity.
Defined.

Lemma first_block_decides_witness :
  Scenarios.tool_then_text Sample.api_client (create_params (lit " M README.md") (lit "diff"))
    = response [other_block (lit "tool_use"); text_block (lit "feat: add README")]
  /\ first_is_text [other_block (lit "tool_use"); text_block (lit "feat: add README")]
     = false
  /\ fst (generateCommitMessage Scenarios.tool_then_text Sample.api_client
            (lit " M README.md") (lit "diff"))
     = lit "chore: auto-commit changes".
Proof.
  split; [reflexivity|]. split; [reflexivity|].
  exact (proj1 (first_block_decides Scenarios.tool_then_text Sample.api_client
                  (lit " M README.md") (lit "diff") _ eq_refl eq_refl)).
Defined.

End LLMHelperProperties.

(* ------------------------------------------------------------------------- *)
(** ** More on the options of the query                                       *)
(* ------------------------------------------------------------------------- *)

Module ClaudeCodeProviderProperties.

Import ClaudeCodeProvider.

Lemma or_string_nonempty a b : b <> [] -> or_string a b <> [].
Proof. intro Hb. destruct a as [[|c s]|]; cbn; trivial; discriminate. Qed.

(** X17. The two permission options always agree: the query has
    [allowDangerouslySkipPermissions] on exactly when its permission mode is
    [bypassPermissions], so the bypass mode is never asked for without the
    flag that allows it, and the flag is never on in the [default] mode. *)
Theorem permission_options_agree this options :
  allowDangerouslySkipPermissions (createQueryOptions this options) = true
  <-> permissionMode (createQueryOptions this options) = bypassPermissions.
Proof.
  unfold createQueryOptions. cbn [allowDangerouslySkipPermissions permissionMode].
  destruct (nullish (skipPermissions (nullish (providerOptions options) empty_bag)) true);
    split; intro E; try reflexivity; discriminate E.
Qed.

(** X18. The query always names a model: the model of the options when it is
    set and not empty, else the model the provider was built with when that
    one is set and not empty, else [claude-sonnet-4-5-20250929]. *)
Theorem query_always_names_a_model workspace built_with options :
  model (createQueryOptions (new_ClaudeCodeProvider workspace built_with) options) <> []
  /\ model (createQueryOptions (new_ClaudeCodeProvider workspace built_with) options)
     = or_string (match providerOptions options with
                  | Some bag => bag_model bag
                  | None => None
                  end)
         (or_string built_with (lit "claude-sonnet-4-5-20250929")).
Proof.
  split.
  - unfold createQueryOptions, new_ClaudeCodeProvider. cbn [model this_model].
    apply or_string_nonempty. apply or_string_nonempty. discriminate.
  - unfold createQueryOptions, new_ClaudeCodeProvider, nullish. cbn [model this_model].
    destruct (providerOptions options); reflexivity.
Qed.

End ClaudeCodeProviderProperties.

(* ------------------------------------------------------------------------- *)
(** ** Facts on the process event by event                                    *)
(* ------------------------------------------------------------------------- *)

Module LiveFacts.

Import Workflow WorkflowSpec RelaySpec RelayFacts WorkflowFacts Live.

Lemma nth_error_replace_same {A} (l : list A) i x c :
  nth_error l i = Some c -> nth_error (replace i x l) i = Some x.
Proof.
  revert i. induction l as [|y l IH]; intros [|i] E; try discriminate E; cbn.
  - reflexivity.
  - apply IH. exact E.
Qed.


Lemma replace_replace {A} (l : list A) i x y :
  replace i y (replace i x l) = replace i y l.
Proof.
  revert i. induction l as [|z l IH]; intros [|i]; cbn; try reflexivity.
  f_equal. apply IH.
Qed.

Lemma replace_same {A} (l : list A) i c :
  nth_error l i = Some c -> replace i c l = l.
Proof.
  revert i. induction l as [|z l IH]; intros [|i] E; try discriminate E; cbn.
  - injection E as ->. reflexivity.
  - f_equal. apply IH. exact E.
Qed.


Section Facts.

Context `{Host}.
Variable config : Config.


Lemma receive_sends_nothing chunk p c : snd (receive chunk p c) = [].
Proof. unfold receive. destruct (stage c); reflexivity. Qed.

Lemma receive_pull r workflowId b v chunk :
  fst (receive chunk (fst (hold_pull r workflowId b v)) (snd (hold_pull r workflowId b v)))
  = hold_pull r workflowId b (Relay.on_data (State * JSON) pull_onData v chunk).
Proof. destruct v as [buffer last [[p res] targetPath]]. reflexivity. Qed.

Lemma receive_execute r workflowId v chunk :
  fst (receive chunk (fst (hold_execute r workflowId v)) (snd (hold_execute r workflowId v)))
  = hold_execute r workflowId (Relay.on_data (State * unit) execute_onData v chunk).
Proof. destruct v as [buffer last [[p res] []]]. reflexivity. Qed.

Lemma receive_all_pull r workflowId b cs v :
  receive_all cs (hold_pull r workflowId b v)
  = hold_pull r workflowId b (fold_left (Relay.on_data (State * JSON) pull_onData) cs v).
Proof.
  revert v. induction cs as [|chunk cs IH]; intro v; [reflexivity|].
  cbn [receive_all fold_left]. rewrite receive_pull. apply IH.
Qed.

Lemma receive_all_execute r workflowId cs v :
  receive_all cs (hold_execute r workflowId v)
  = hold_execute r workflowId (fold_left (Relay.on_data (State * unit) execute_onData) cs v).
Proof.
  revert v. induction cs as [|chunk cs IH]; intro v; [reflexivity|].
  cbn [receive_all fold_left]. rewrite receive_execute. apply IH.
Qed.

Lemma run_cons ev evs sys : run config (ev :: evs) sys = run config evs (step config ev sys).
Proof. reflexivity. Qed.

Lemma run_app evs evs' sys :
  run config (evs ++ evs') sys = run config evs' (run config evs sys).
Proof. apply fold_left_app. Qed.

Lemma step_data i chunk p l s c :
  nth_error l i = Some c ->
  step config (data i chunk) {| proc := p; connections := l; sent := s; exited := None |}
  = {| proc := fst (fst (receive chunk p c));
       connections := replace i (snd (fst (receive chunk p c))) l;
       sent := s; exited := None |}.
Proof.
  intro E. unfold step, act. cbn [exited connections proc sent]. rewrite E.
  pose proof (receive_sends_nothing chunk p c) as Hs.
  destruct (receive chunk p c) as [[p' c'] requests]. cbn [snd fst] in *. subst requests.
  rewrite app_nil_r. reflexivity.
Qed.

(** The chunks of one connection, with nothing in between. *)
Lemma run_data i cs p l s c :
  nth_error l i = Some c ->
  run config (map (data i) cs)
    {| proc := p; connections := l; sent := s; exited := None |}
  = {| proc := fst (receive_all cs (p, c));
       connections := replace i (snd (receive_all cs (p, c))) l;
       sent := s; exited := None |}.
Proof.
  revert p l c. induction cs as [|chunk cs IH]; intros p l c E.
  - cbn. rewrite (replace_same l i c E). reflexivity.
  - cbn [map]. rewrite run_cons, (step_data i chunk p l s c E).
    rewrite (IH _ _ _ (nth_error_replace_same l i _ c E)).
    rewrite replace_replace. cbn [receive_all fold_left fst snd].
    rewrite <- surjective_pairing. reflexivity.
Qed.

(** The chunks of a whole response for a connection that waits for the pull
    with an empty buffer. *)
Lemma pull_chunks r workflowId b cs st :
  receive_all cs (hold_pull r workflowId b (Relay.initial (st, JString [])))
  = let text := List.concat (map toString cs) in
    let rs := records (complete_frames text) in
    hold_pull r workflowId b
      {| Relay.buffer := retained text;
         Relay.lastEventData := last (map snd rs) JNull;
         Relay.caller := (write_all (map pull_progress_frame rs) st,
                          fold_left pick_targetPath rs (JString [])) |}.
Proof.
  rewrite receive_all_pull, on_data_texts, on_text_chunks, on_text_spec.
  cbv zeta. cbn [Relay.initial Relay.buffer Relay.lastEventData Relay.caller app].
  rewrite pull_deliver. reflexivity.
Qed.

Lemma execute_chunks r workflowId cs st :
  receive_all cs (hold_execute r workflowId (Relay.initial (st, tt)))
  = let text := List.concat (map toString cs) in
    let rs := records (complete_frames text) in
    hold_execute r workflowId
      {| Relay.buffer := retained text;
         Relay.lastEventData := last (map snd rs) JNull;
         Relay.caller := (write_all (map forwarded_frame rs) st, tt) |}.
Proof.
  rewrite receive_all_execute, on_data_texts, on_text_chunks, on_text_spec.
  cbv zeta. cbn [Relay.initial Relay.buffer Relay.lastEventData Relay.caller app].
  rewrite execute_deliver. reflexivity.
Qed.

Ltac run_turn :=
  repeat (rewrite run_res_write || rewrite run_res_setHeader || rewrite run_res_end
          || rewrite run_console_write || rewrite run_set_serverStatus
          || rewrite run_exit_after_delay).

(** The handler between its [await]s, run on a state given by its fields. *)
Lemma opening_run workflowId b st cs x :
  on_state (opening workflowId b)
    {| serverStatus := st; console := cs; exit_timer := x |} fresh_res
  = ({| serverStatus := busy; console := cs; exit_timer := x |},
     {| statusCode := 200; headers := sse_headers;
        written := opening_frames workflowId b; ended := false |}).
Proof. reflexivity. Qed.

Lemma after_pull_run workflowId b targetPath p c h w e :
  on_state (after_pull workflowId b targetPath) p
    {| statusCode := c; headers := h; written := w; ended := e |}
  = (p, {| statusCode := c; headers := h;
           written := w ++ announcing_frames workflowId b targetPath; ended := e |}).
Proof.
  unfold on_state, after_pull. run_turn.
  unfold res_write, on_res, write. cbn. rewrite <- !app_assoc. reflexivity.
Qed.

Lemma closing_run workflowId st cs x c h w e :
  on_state (closing workflowId)
    {| serverStatus := st; console := cs; exit_timer := x |}
    {| statusCode := c; headers := h; written := w; ended := e |}
  = ({| serverStatus := st;
        console := cs ++ [console_log
                            (lit "Workflow completed successfully. Exiting process...")];
        exit_timer := match x with Some code => Some code | None => Some 0%Z end |},
     {| statusCode := c; headers := h;
        written := w ++ [complete_frame workflowId]; ended := true |}).
Proof. reflexivity. Qed.

Lemma catch_run workflowId error st cs x c h w e :
  on_state (workflow_catch workflowId error)
    {| serverStatus := st; console := cs; exit_timer := x |}
    {| statusCode := c; headers := h; written := w; ended := e |}
  = ({| serverStatus := st;
        console := (cs ++ [console_error (lit "Workflow error:") error])
                   ++ [console_log (lit "Workflow failed. Exiting process...")];
        exit_timer := match x with Some code => Some code | None => Some 1%Z end |},
     {| statusCode := c; headers := h;
        written := w ++ [error_frame workflowId error]; ended := true |}).
Proof. unfold on_state. rewrite workflow_catch_run. reflexivity. Qed.

(** The turns of the workflow handler, on a system given by its fields. *)
Lemma step_accept workflowId b st cs x l s :
  well_formed b = true ->
  step config (arrives (workflow workflowId (Some b)))
    {| proc := {| serverStatus := st; console := cs; exit_timer := x |};
       connections := l; sent := s; exited := None |}
  = {| proc := {| serverStatus := busy; console := cs; exit_timer := x |};
       connections :=
         l ++ [{| route := workflow workflowId (Some b);
                  response := {| statusCode := 200; headers := sse_headers;
                                 written := opening_frames workflowId b;
                                 ended := false |};
                  stage := awaiting_pull workflowId b [] JNull (JString []) |}];
       sent := s ++ [pull_request config b]; exited := None |}.
Proof.
  intro Hw. unfold well_formed in Hw. apply andb_true_iff in Hw as [Hp Hr].
  unfold step, connect. cbn [exited proc connections sent destructure].
  rewrite Hp, Hr. cbn [negb orb]. rewrite opening_run. reflexivity.
Qed.

Lemma step_end_of_pull i r workflowId b buffer last targetPath c h w e p l s :
  nth_error l i
  = Some {| route := r;
            response := {| statusCode := c; headers := h; written := w; ended := e |};
            stage := awaiting_pull workflowId b buffer last targetPath |} ->
  step config (stream_end i) {| proc := p; connections := l; sent := s; exited := None |}
  = {| proc := p;
       connections :=
         replace i {| route := r;
                      response := {| statusCode := c; headers := h;
                                     written := w ++ announcing_frames workflowId b targetPath;
                                     ended := e |};
                      stage := awaiting_execute workflowId [] JNull |} l;
       sent := s ++ [execute_request config b targetPath]; exited := None |}.
Proof.
  intro E. unfold step, act. cbn [exited connections proc sent]. rewrite E.
  unfold finish. cbn [stage response route]. rewrite after_pull_run. reflexivity.
Qed.

Lemma step_end_of_execute i r workflowId buffer last c h w e st cs x l s :
  nth_error l i
  = Some {| route := r;
            response := {| statusCode := c; headers := h; written := w; ended := e |};
            stage := awaiting_execute workflowId buffer last |} ->
  step config (stream_end i)
    {| proc := {| serverStatus := st; console := cs; exit_timer := x |};
       connections := l; sent := s; exited := None |}
  = {| proc := {| serverStatus := st;
                  console := cs ++ [console_log
                                      (lit "Workflow completed successfully. Exiting process...")];
                  exit_timer := match x with Some code => Some code | None => Some 0%Z end |};
       connections :=
         replace i {| route := r;
                      response := {| statusCode := c; headers := h;
                                     written := w ++ [complete_frame workflowId];
                                     ended := true |};
                      stage := returned |} l;
       sent := s; exited := None |}.
Proof.
  intro E. unfold step, act. cbn [exited connections proc sent]. rewrite E.
  unfold finish. cbn [stage response route]. rewrite closing_run, app_nil_r. reflexivity.
Qed.

Lemma step_error i r g workflowId error c h w e st cs x l s :
  nth_error l i
  = Some {| route := r;
            response := {| statusCode := c; headers := h; written := w; ended := e |};
            stage := g |} ->
  waiting g = Some workflowId ->
  step config (stream_error i error)
    {| proc := {| serverStatus := st; console := cs; exit_timer := x |};
       connections := l; sent := s; exited := None |}
  = {| proc := {| serverStatus := st;
                  console := (cs ++ [console_error (lit "Workflow error:") error])
                             ++ [console_log (lit "Workflow failed. Exiting process...")];
                  exit_timer := match x with Some code => Some code | None => Some 1%Z end |};
       connections :=
         replace i {| route := r;
                      response := {| statusCode := c; headers := h;
                                     written := w ++ [error_frame workflowId error];
                                     ended := true |};
                      stage := returned |} l;
       sent := s; exited := None |}.
Proof.
  intros E Hg. unfold step, act. cbn [exited connections proc sent]. rewrite E.
  unfold fail. cbn [stage response route].
  destruct g; try discriminate Hg; cbn [waiting] in Hg; injection Hg as ->;
    rewrite catch_run, app_nil_r; reflexivity.
Qed.

Lemma run_one ev sys : run config [ev] sys = step config ev sys.
Proof. reflexivity. Qed.

(** A workflow that is alone in the process, event by event, gives what the
    handler run from its arrival to its end gives, and sends the two
    requests. *)
Lemma alone_is_serve workflowId b p :
  well_formed b = true ->
  run config (alone config workflowId b) (started p)
  = {| proc := fst (serve (postWorkflow config workflowId b) p);
       connections :=
         [{| route := workflow workflowId (Some b);
             response := snd (serve (postWorkflow config workflowId b) p);
             stage := returned |}];
       sent := pull_request config b
               :: match ending (pull_response config b) with
                  | StreamEnd => [execute_request config b (targetPath_of_pull config b)]
                  | StreamError _ => []
                  end;
       exited := None |}.
Proof.
  intro Hw. rewrite (postWorkflow_trace config workflowId b p Hw). cbn [fst snd].
  destruct p as [st cs x]. unfold alone, started.
  rewrite run_cons, (step_accept workflowId b st cs x [] [] Hw). cbn [app].
  unfold events_of. rewrite !run_app.
  erewrite (run_data 0 (chunks (pull_response config b))) by reflexivity.
  match goal with
  | |- context [receive_all ?cs (?p, {| route := ?r; response := ?res;
                                        stage := awaiting_pull ?w ?bb [] JNull (JString []) |})] =>
      change (p, {| route := r; response := res;
                    stage := awaiting_pull w bb [] JNull (JString []) |})
        with (hold_pull r w bb (Relay.initial ({| process := p; res := res |}, JString [])))
  end.
  rewrite pull_chunks. cbv zeta. unfold hold_pull.
  cbn [fst snd Relay.caller Relay.buffer Relay.lastEventData replace].
  rewrite run_write_all. cbn [process res].
  fold (stream_text (pull_response config b)).
  fold (stream_frames (pull_response config b)).
  fold (pull_records config b). fold (targetPath_of_pull config b).
  unfold workflow_frames, workflow_console, workflow_exit_code, fatal_error.
  destruct (ending (pull_response config b)) as [|e1].
  - rewrite run_one. erewrite (step_end_of_pull 0) by reflexivity.
    cbn [replace app]. rewrite run_app.
    erewrite (run_data 0 (chunks (execute_response config b))) by reflexivity.
    match goal with
    | |- context [receive_all ?cs (?p, {| route := ?r; response := ?res;
                                          stage := awaiting_execute ?w [] JNull |})] =>
        change (p, {| route := r; response := res; stage := awaiting_execute w [] JNull |})
          with (hold_execute r w (Relay.initial ({| process := p; res := res |}, tt)))
    end.
    rewrite execute_chunks. cbv zeta. unfold hold_execute.
    cbn [fst snd Relay.caller Relay.buffer Relay.lastEventData replace].
    rewrite run_write_all. cbn [process res].
    fold (stream_text (execute_response config b)).
    fold (stream_frames (execute_response config b)).
    fold (execute_records config b).
    destruct (ending (execute_response config b)) as [|e2].
    + rewrite run_one. erewrite (step_end_of_execute 0) by reflexivity.
      cbn [replace]. unfold step1_frames, step2_frames, opening_frames, announcing_frames.
      rewrite <- !app_assoc. reflexivity.
    + rewrite run_one. erewrite (step_error 0) by reflexivity.
      cbn [replace]. unfold step1_frames, step2_frames, opening_frames, announcing_frames.
      rewrite <- !app_assoc. reflexivity.
  - rewrite run_one. erewrite (step_error 0) by reflexivity.
    cbn [replace run fold_left]. unfold step1_frames, opening_frames.
    rewrite <- !app_assoc. reflexivity.
Qed.

(** A chunk for a connection that waits for the pull, and for one that waits
    for the execution, in the words of the specification of the relay. *)
Lemma receive_on_pull chunk p r resp workflowId b buffer lst targetPath :
  receive chunk p {| route := r; response := resp;
                     stage := awaiting_pull workflowId b buffer lst targetPath |}
  = ((p, {| route := r;
            response := appended (map pull_progress_frame
                                    (records (complete_frames (buffer ++ toString chunk))))
                          resp;
            stage := awaiting_pull workflowId b (retained (buffer ++ toString chunk))
                       (last (map snd (records (complete_frames (buffer ++ toString chunk))))
                          lst)
                       (fold_left pick_targetPath
                          (records (complete_frames (buffer ++ toString chunk)))
                          targetPath) |}), []).
Proof.
  unfold receive. cbn [stage response route]. unfold Relay.on_data.
  rewrite on_text_spec. cbv zeta.
  cbn [Relay.buffer Relay.lastEventData Relay.caller].
  rewrite pull_deliver. reflexivity.
Qed.

Lemma receive_on_execute chunk p r resp workflowId buffer lst :
  receive chunk p {| route := r; response := resp;
                     stage := awaiting_execute workflowId buffer lst |}
  = ((p, {| route := r;
            response := appended (map forwarded_frame
                                    (records (complete_frames (buffer ++ toString chunk))))
                          resp;
            stage := awaiting_execute workflowId (retained (buffer ++ toString chunk))
                       (last (map snd (records (complete_frames (buffer ++ toString chunk))))
                          lst) |}), []).
Proof.
  unfold receive. cbn [stage response route]. unfold Relay.on_data.
  rewrite on_text_spec. cbv zeta.
  cbn [Relay.buffer Relay.lastEventData Relay.caller].
  rewrite execute_deliver. reflexivity.
Qed.

Lemma no_terminal_in_progress rs : filter terminal (map pull_progress_frame rs) = [].
Proof. induction rs as [|r rs IH]; [reflexivity | exact IH]. Qed.

Lemma no_terminal_in_forwarded rs : filter terminal (map forwarded_frame rs) = [].
Proof. induction rs as [|r rs IH]; [reflexivity | exact IH]. Qed.

(** The three turns, by kind. *)
Lemma receive_kind chunk p c :
  turn_kind p c (fst (fst (receive chunk p c))) (snd (fst (receive chunk p c))).
Proof.
  destruct c as [r resp [workflowId b buffer lst targetPath|workflowId buffer lst| |e]].
  - rewrite receive_on_pull. cbn [fst snd].
    apply goes_on; cbn [route response stage appended statusCode ended written waiting];
      try reflexivity; try discriminate.
    rewrite filter_app, no_terminal_in_progress, app_nil_r. reflexivity.
  - rewrite receive_on_execute. cbn [fst snd].
    apply goes_on; cbn [route response stage appended statusCode ended written waiting];
      try reflexivity; try discriminate.
    rewrite filter_app, no_terminal_in_forwarded, app_nil_r. reflexivity.
  - apply goes_on; try reflexivity; intro E; exact E.
  - apply goes_on; try reflexivity; intro E; exact E.
Qed.

Lemma finish_kind p c :
  turn_kind p c (fst (fst (finish config p c))) (snd (fst (finish config p c))).
Proof.
  destruct c as [r [sc h w e] [workflowId b buffer lst targetPath|workflowId buffer lst| |err]].
  - unfold finish. cbn [stage response route]. rewrite after_pull_run. cbn [fst snd].
    apply goes_on; cbn [route response stage statusCode ended written waiting];
      try reflexivity; try discriminate.
    rewrite filter_app. cbn. rewrite app_nil_r. reflexivity.
  - destruct p as [st cs x].
    unfold finish. cbn [stage response route]. rewrite closing_run. cbn [fst snd].
    apply (finishes _ _ _ _ 0%Z (complete_frame workflowId));
      cbn [route response stage statusCode ended written waiting serverStatus exit_timer];
      try reflexivity; try discriminate.
    left. split; reflexivity.
  - apply goes_on; try reflexivity; intro E; exact E.
  - apply goes_on; try reflexivity; intro E; exact E.
Qed.

Lemma fail_kind error p c :
  turn_kind p c (fst (fst (fail error p c))) (snd (fst (fail error p c))).
Proof.
  destruct p as [st cs x].
  destruct c as [r [sc h w e] [workflowId b buffer lst targetPath|workflowId buffer lst| |err]].
  - unfold fail. cbn [stage response route]. rewrite catch_run. cbn [fst snd].
    apply (finishes _ _ _ _ 1%Z (error_frame workflowId error));
      cbn [route response stage statusCode ended written waiting serverStatus exit_timer];
      try reflexivity; try discriminate.
    right. split; reflexivity.
  - unfold fail. cbn [stage response route]. rewrite catch_run. cbn [fst snd].
    apply (finishes _ _ _ _ 1%Z (error_frame workflowId error));
      cbn [route response stage statusCode ended written waiting serverStatus exit_timer];
      try reflexivity; try discriminate.
    right. split; reflexivity.
  - apply goes_on; try reflexivity; intro E; exact E.
  - apply goes_on; try reflexivity; intro E; exact E.
Qed.


Lemma outcome_terminal code t : outcome code t -> terminal t = true.
Proof.
  unfold terminal. intros [[_ E]|[_ E]]; rewrite E; [reflexivity | apply orb_true_r].
Qed.

Lemma accepted_route c c' : route c' = route c -> accepted c' = accepted c.
Proof. unfold accepted. intros ->. reflexivity. Qed.

(** A turn keeps a connection well. *)
Lemma turn_keeps_well p c p' c' : turn_kind p c p' c' -> well c -> well c'.
Proof.
  intros [Hr _ He Hf _ _ Hsame Hwait | code t Hwait Hg Hr _ He Hw Ho _ _] Hc.
  - destruct (waiting (stage c)) as [workflowId|] eqn:Ew.
    + assert (Hw' : waiting (stage c') <> None) by (apply Hwait; discriminate).
      unfold well in *. rewrite (accepted_route c c' Hr), He, Hf.
      destruct (stage c); try discriminate Ew;
        destruct (stage c'); try (exfalso; apply Hw'; reflexivity); exact Hc.
    + rewrite (Hsame eq_refl). exact Hc.
  - unfold well in *. rewrite Hg, (accepted_route c c' Hr), He.
    assert (Hc' : accepted c = true /\ filter terminal (written (response c)) = []).
    { destruct (stage c); try (exfalso; apply Hwait; reflexivity);
        destruct Hc as [Ha [_ Hn]]; split; assumption. }
    destruct Hc' as [Ha Hn]. rewrite Ha. split; [reflexivity|].
    exists t, (written (response c)). repeat split; try assumption.
    exact (outcome_terminal code t Ho).
Qed.

Lemma Forall_replace {A} (P : A -> Prop) (l : list A) i x :
  Forall P l -> P x -> Forall P (replace i x l).
Proof.
  intros Hl Hx. revert i. induction Hl as [|y l Hy Hl IH]; intros [|i]; cbn.
  - constructor.
  - constructor.
  - constructor; assumption.
  - constructor; [assumption | apply IH].
Qed.

Lemma Forall_nth_error {A} (P : A -> Prop) (l : list A) i c :
  Forall P l -> nth_error l i = Some c -> P c.
Proof.
  intros Hl E. rewrite Forall_forall in Hl. apply Hl. exact (nth_error_In l i E).
Qed.

Section Acts.

Variable turn : Process -> Connection -> (Process * Connection) * list (jsstring * JSON).
Hypothesis turn_is_of_a_kind :
  forall p c, turn_kind p c (fst (fst (turn p c))) (snd (fst (turn p c))).

Lemma act_turn i sys c :
  nth_error (connections sys) i = Some c ->
  act i turn sys
  = {| proc := fst (fst (turn (proc sys) c));
       connections := replace i (snd (fst (turn (proc sys) c))) (connections sys);
       sent := sent sys ++ snd (turn (proc sys) c);
       exited := exited sys |}.
Proof.
  intro E. unfold act. rewrite E. destruct (turn (proc sys) c) as [[p' c'] requests].
  reflexivity.
Qed.

Lemma act_nowhere i sys : nth_error (connections sys) i = None -> act i turn sys = sys.
Proof. intro E. unfold act. rewrite E. reflexivity. Qed.


Lemma act_well i sys :
  Forall well (connections sys) -> Forall well (connections (act i turn sys)).
Proof.
  intro Hl. destruct (nth_error (connections sys) i) as [c|] eqn:E.
  - rewrite (act_turn i sys c E). cbn [connections]. apply Forall_replace; [exact Hl|].
    apply (turn_keeps_well _ _ _ _ (turn_is_of_a_kind (proc sys) c)).
    exact (Forall_nth_error well _ i c Hl E).
  - rewrite (act_nowhere i sys E). exact Hl.
Qed.


Lemma act_flag i sys : serverStatus (proc (act i turn sys)) = serverStatus (proc sys).
Proof.
  destruct (nth_error (connections sys) i) as [c|] eqn:E.
  - rewrite (act_turn i sys c E). cbn [proc].
    destruct (turn_is_of_a_kind (proc sys) c) as [_ _ _ _ Hs _ _ _ | ? ? _ _ _ _ _ _ _ Hs _];
      exact Hs.
  - rewrite (act_nowhere i sys E). reflexivity.
Qed.


End Acts.

Ltac kind_fact :=
  try reflexivity; try discriminate; try (left; reflexivity); try (right; reflexivity).

(** A request that arrives: what its handler leaves before its first
    [await]. *)
Lemma connect_kind r p :
  route (snd (fst (connect config r p))) = r
  /\ well (snd (fst (connect config r p)))
  /\ exit_timer (fst (fst (connect config r p))) = exit_timer p
  /\ (statusCode (response (snd (fst (connect config r p)))) = 200%N
      \/ statusCode (response (snd (fst (connect config r p)))) = 400%N)
  /\ (accepted (snd (fst (connect config r p))) = true ->
      ended (response (snd (fst (connect config r p)))) = false).
Proof.
  destruct p as [st cs x]. destruct r as [| |workflowId [b|]].
  - cbn. repeat split; kind_fact.
  - cbn. repeat split; kind_fact.
  - unfold connect. cbn [destructure].
    destruct (truthy_opt (prompt b)) eqn:Ep; [destruct (truthy_opt (repoUrl b)) eqn:Er|];
      cbn [negb orb].
    + rewrite opening_run. cbn [fst snd route response statusCode ended exit_timer].
      unfold well, accepted, well_formed. cbn [stage route response ended written].
      rewrite Ep, Er. repeat split; kind_fact.
    + cbn. unfold well, accepted, well_formed. cbn. rewrite Ep, Er.
      repeat split; kind_fact.
    + cbn. unfold well, accepted, well_formed. cbn. rewrite Ep.
      repeat split; kind_fact.
  - cbn. unfold well, accepted. cbn. repeat split; kind_fact.
Qed.

Lemma step_arrives r sys :
  exited sys = None ->
  step config (arrives r) sys
  = {| proc := fst (fst (connect config r (proc sys)));
       connections := connections sys ++ [snd (fst (connect config r (proc sys)))];
       sent := sent sys ++ snd (connect config r (proc sys));
       exited := None |}.
Proof.
  intro E. unfold step. rewrite E.
  destruct (connect config r (proc sys)) as [[p c] requests]. reflexivity.
Qed.

(** The connections stay well, step by step. *)
Lemma step_well ev sys :
  Forall well (connections sys) -> Forall well (connections (step config ev sys)).
Proof.
  intro Hl. destruct (exited sys) as [code|] eqn:Ex.
  - unfold step. rewrite Ex. exact Hl.
  - destruct ev as [r|i chunk|i|i error|].
    + rewrite (step_arrives r sys Ex). cbn [connections].
      apply Forall_app. split; [exact Hl|]. constructor; [|constructor].
      apply connect_kind.
    + unfold step. rewrite Ex. apply act_well; [apply receive_kind | exact Hl].
    + unfold step. rewrite Ex. apply act_well; [apply finish_kind | exact Hl].
    + unfold step. rewrite Ex. apply act_well; [apply fail_kind | exact Hl].
    + unfold step. rewrite Ex. destruct (exit_timer (proc sys)); exact Hl.
Qed.

Lemma run_well evs sys :
  Forall well (connections sys) -> Forall well (connections (run config evs sys)).
Proof.
  revert sys. induction evs as [|ev evs IH]; intros sys Hl; [exact Hl|].
  rewrite run_cons. apply IH, step_well, Hl.
Qed.





















End Facts.

End LiveFacts.

(* ------------------------------------------------------------------------- *)
(** ** The process event by event: what it guarantees                         *)
(* ------------------------------------------------------------------------- *)

Module LiveTheorems.

Import Workflow WorkflowSpec RelaySpec Server Live LiveFacts.

Section Process.

Context `{Host}.
Variable config : Config.


(** C9 (at the failing input).  A request to the workflow endpoint whose
    [req.body] is [undefined] is not answered 400: the handler throws a
    TypeError at its first statement, the destructuring, before the check of
    the two fields; it writes nothing, sets no status and leaves the process
    as it was.  When [req.body] is an object, the handler goes on as
    [postWorkflow], and a body in which a required field is missing or falsy
    is answered 400 with the validation error, the process left as it was. *)
Theorem absent_body_throws_before_the_check workflowId s :
  postWorkflow_of_request config workflowId None s
  = (s, Threw (ErrorObject
                 (lit "Cannot destructure property 'prompt' of 'req.body' as it is undefined.")))
  /\ (forall sys,
        exited sys = None ->
        step config (arrives (workflow workflowId None)) sys
        = {| proc := proc sys;
             connections :=
               connections sys
               ++ [{| route := workflow workflowId None;
                      response := fresh_res;
                      stage := threw (ErrorObject
                                        (lit "Cannot destructure property 'prompt' of 'req.body' as it is undefined.")) |}];
             sent := sent sys;
             exited := None |})
  /\ (forall b,
        postWorkflow_of_request config workflowId (Some b) s
        = postWorkflow config workflowId b s)
  /\ (forall b p,
        well_formed b = false ->
        serve (postWorkflow_of_request config workflowId (Some b)) p
        = (p, {| statusCode := 400;
                 headers := [(lit "Content-Type", lit "application/json; charset=utf-8")];
                 written := [Json (object ["error" ~> str "prompt and repoUrl are required"])];
                 ended := true |})).
Proof.
  split; [reflexivity|]. split; [|split].
  - intros sys Ex. rewrite (step_arrives config _ sys Ex). cbn.
    rewrite app_nil_r. reflexivity.
  - intro b. reflexivity.
  - intros b p Hw. unfold well_formed in Hw.
    unfold serve, postWorkflow_of_request, bind, destructure, postWorkflow.
    assert (E : negb (truthy_opt (prompt b)) || negb (truthy_opt (repoUrl b)) = true).
    { apply andb_false_iff in Hw as [Hw|Hw]; rewrite Hw; [reflexivity | apply orb_true_r]. }
    rewrite E. reflexivity.
Qed.

(** X7. At every moment of every run of the process, however the requests
    and the downstream events come: a response that is still open carries no
    terminal frame; the response of a request that was not accepted carries
    none; and the response of an accepted workflow that has ended carries
    exactly one, as the last thing written.  A terminal frame is a
    [workflow_complete] or [workflow_error] frame that the handler built:
    the texts it forwards from the execution service are not looked into.
    Nothing says that a response ends: a workflow whose downstream response
    neither ends nor fails stays open. *)
Theorem one_terminal_frame_and_only_at_the_end p evs :
  Forall (fun c =>
            (ended (response c) = false -> filter terminal (written (response c)) = [])
            /\ (accepted c = false -> filter terminal (written (response c)) = [])
            /\ (accepted c = true -> ended (response c) = true ->
                exists before t,
                  written (response c) = before ++ [t]
                  /\ terminal t = true
                  /\ filter terminal before = []))
    (connections (run config evs (started p))).
Proof.
  assert (Hl : Forall well (connections (run config evs (started p))))
    by (apply run_well; constructor).
  eapply Forall_impl; [|exact Hl]. clear Hl. intros c Hc. unfold well in Hc.
  destruct (stage c).
  - destruct Hc as (Ha & He & Hn). repeat split; try (intros; exact Hn).
    intros _ E. congruence.
  - destruct Hc as (Ha & He & Hn). repeat split; try (intros; exact Hn).
    intros _ E. congruence.
  - destruct Hc as (He & Hc). repeat split.
    + intro E. congruence.
    + intro Ha. rewrite Ha in Hc. exact Hc.
    + intros Ha _. rewrite Ha in Hc. destruct Hc as (t & before & Hc).
      exists before, t. exact Hc.
  - destruct Hc as (Ha & Hr). rewrite Hr. repeat split; try reflexivity.
    intro E. congruence.
Qed.



End Process.


(** The second job is refused by its pull service and the timer fires: the
    process exits with code 1 while the first job waits for its pull; the
    response of the first job holds its two opening frames and is never
    ended, and what its pull service answers afterwards is lost. *)
Example refused_job_cuts_the_running_one :
  let sys := @run (Sample.host Sample.silent) default_config
               LiveScenarios.second_is_refused (started boot) in
  exited sys = Some 1%Z
  /\ map (fun c => (ended (response c), List.length (written (response c)),
                    waiting (stage c)))
       (connections sys)
     = [(false, 2%nat, Some (lit "job-A")); (true, 3%nat, None)].
Proof. split; reflexivity. Qed.

(** Two jobs whose events alternate, with a probe and a request without a
    body in between: both are accepted, each response gets the frames of its
    own workflow, and the first to end arms the exit with code 0. *)
Example interleaved_jobs :
  let sys := @run (Sample.host Sample.silent) default_config
               LiveScenarios.interleaved (started boot) in
  exited sys = None
  /\ exit_timer (proc sys) = Some 0%Z
  /\ map (fun c => (statusCode (response c), ended (response c),
                    List.length (written (response c)),
                    List.length (filter terminal (written (response c)))))
       (connections sys)
     = [(200%N, true, 7%nat, 1%nat); (200%N, false, 6%nat, 0%nat);
        (200%N, true, 1%nat, 0%nat); (200%N, false, 0%nat, 0%nat)]
  /\ List.length (sent sys) = 4%nat.
Proof. repeat split. Qed.

Lemma absent_body_throws_before_the_check_witness :
  well_formed Sample.request_without_repoUrl = false
  /\ statusCode
       (snd (@serve (@postWorkflow_of_request (Sample.host Sample.silent) default_config
                       Sample.workflowId (Some Sample.request_without_repoUrl)) boot))
     = 400%N
  /\ map (fun c => (written (response c), ended (response c), waiting (stage c)))
       (connections (@step (Sample.host Sample.silent) default_config
                       (arrives (workflow Sample.workflowId None)) (started boot)))
     = [([], false, None)].
Proof.
  pose proof (@absent_body_throws_before_the_check (Sample.host Sample.silent)
                default_config Sample.workflowId
                {| process := boot; res := fresh_res |}) as (_ & Hstep & _ & Hcheck).
  split; [reflexivity|]. split.
  - rewrite (Hcheck Sample.request_without_repoUrl boot eq_refl). reflexivity.
  - rewrite (Hstep (started boot) eq_refl). reflexivity.
Defined.

Lemma one_terminal_frame_and_only_at_the_end_witness :
  Forall (fun c =>
            accepted c = true -> ended (response c) = true ->
            exists before t,
              written (response c) = before ++ [t]
              /\ terminal t = true
              /\ filter terminal before = [])
    (connections (@run (Sample.host Sample.silent) default_config
                    LiveScenarios.interleaved (started boot))).
Proof.
  eapply Forall_impl;
    [|exact (@one_terminal_frame_and_only_at_the_end (Sample.host Sample.silent)
               default_config boot LiveScenarios.interleaved)].
  intros c (_ & _ & Hc). exact Hc.
Defined.



End LiveTheorems.
